(** * Firecrown / TJPCosmo: parameter mapping, configuration checks, likelihood

    A shallow embedding of

      - [firecrown/connector/mapping.py]  (parameter record, CosmoSIS mapper),
      - [firecrown/parser.py]             (reduction of the parameter block,
        merge of data into a parsed file),
      - [firecrown/likelihood/gauss_family/student_t.py],
      - [tjpcosmo/models/twopoint/calculator.py]
        ([convert_cosmobase_to_ccl], [setup_systematics], [setup_sources]),

    followed by the properties proved about them.

    Python values are a small inductive type; Python floats are IEEE binary64
    numbers, modelled by Rocq's primitive floats, so every arithmetic step of
    the source is the same rounding step here.  Exceptions are an explicit
    error monad. *)

From Stdlib Require Import ZArith Floats.
From stdpp Require Import gmap strings list.

Set Warnings "-inexact-float,-register-all,-clear-no-such-hyp".

(* ===================================================================== *)
(** * Python values, exceptions and operators                             *)
(* ===================================================================== *)

Module Py.

(** The values a configuration or sampler block can hold. *)
Inductive pyval : Type :=
  | PNone
  | PBool (b : bool)
  | PInt (n : Z)
  | PFloat (f : float)
  | PStr (s : string)
  | PList (l : list pyval).

(** [type(v)] *)
Inductive pytype : Type := TNone | TBool | TInt | TFloat | TStr | TList.

Definition type_of (v : pyval) : pytype :=
  match v with
  | PNone => TNone
  | PBool _ => TBool
  | PInt _ => TInt
  | PFloat _ => TFloat
  | PStr _ => TStr
  | PList _ => TList
  end.

#[global] Instance pytype_eq_dec : EqDecision pytype.
Proof. solve_decision. Defined.

Definition pytype_eqb (a b : pytype) : bool :=
  match a, b with
  | TNone, TNone | TBool, TBool | TInt, TInt
  | TFloat, TFloat | TStr, TStr | TList, TList => true
  | _, _ => false
  end.

(** Exceptions, by class.  The message is the source's where the source
    raises; for errors raised by the interpreter it is a short tag. *)
Inductive exn : Type :=
  | KeyError (key : string)
  | TypeError (msg : string)
  | ValueError (msg : string)
  | IndexError (msg : string)
  | OverflowError (msg : string)
  | ZeroDivisionError (msg : string)
  | AttributeError (attr : string)
  | MemoryError (msg : string).

Inductive result (A : Type) : Type :=
  | Ok (a : A)
  | Raise (e : exn).
Arguments Ok {A} a.
Arguments Raise {A} e.

Definition bind {A B} (r : result A) (k : A -> result B) : result B :=
  match r with
  | Ok a => k a
  | Raise e => Raise e
  end.

Definition is_Ok {A} (r : result A) : bool :=
  match r with Ok _ => true | Raise _ => false end.

Definition is_KeyError (e : exn) : bool :=
  match e with KeyError _ => true | _ => false end.

Definition is_ValueError (e : exn) : bool :=
  match e with ValueError _ => true | _ => false end.

(** [v is None] *)
Definition is_None (v : pyval) : bool :=
  match v with PNone => true | _ => false end.

(** [isinstance(v, list)] *)
Definition is_list (v : pyval) : bool :=
  match v with PList _ => true | _ => false end.

(** [isinstance(v, str)] *)
Definition is_str (v : pyval) : bool :=
  match v with PStr _ => true | _ => false end.

(** [bool(v)]: the truth value used by [if], [and], [elif]. *)
Definition truthy (v : pyval) : bool :=
  match v with
  | PNone => false
  | PBool b => b
  | PInt n => negb (n =? 0)%Z
  | PFloat f => negb (f =? 0)%float
  | PStr s => negb (String.eqb s "")
  | PList l => match l with [] => false | _ => true end
  end.

(** [float(n)] for an integer: rounded to nearest-even, [OverflowError]
    when the rounded value is not finite. *)
Definition float_of_int (n : Z) : result float :=
  match binary_normalize prec emax n 0 false with
  | S754_infinity _ => Raise (OverflowError "int too large to convert to float")
  | sf => Ok (SF2Prim sf)
  end.

(** Numeric view of a value: [bool] is a subclass of [int]. *)
Inductive num : Type :=
  | NInt (n : Z)
  | NFloat (f : float).

Definition as_num (v : pyval) : option num :=
  match v with
  | PBool b => Some (NInt (Z.b2z b))
  | PInt n => Some (NInt n)
  | PFloat f => Some (NFloat f)
  | _ => None
  end.

Definition num_float (x : num) : result float :=
  match x with
  | NInt n => float_of_int n
  | NFloat f => Ok f
  end.

(** [float(v)] for a number. *)
Definition py_float (v : pyval) : result float :=
  match as_num v with
  | Some x => num_float x
  | None => Raise (TypeError "float() argument must be a number")
  end.

(** Binary arithmetic on two numbers: integers stay integers, anything
    with a float is computed in floats after converting the other side. *)
Definition num_binop (opz : Z -> Z -> Z) (opf : float -> float -> float)
    (x y : num) : result pyval :=
  match x, y with
  | NInt a, NInt b => Ok (PInt (opz a b))
  | _, _ =>
      bind (num_float x) (fun a =>
      bind (num_float y) (fun b => Ok (PFloat (opf a b))))
  end.

Definition operand_error (op : string) : exn :=
  TypeError ("unsupported operand type(s) for " ++ op).

(** [a + b] *)
Definition py_add (a b : pyval) : result pyval :=
  match as_num a, as_num b with
  | Some x, Some y => num_binop Z.add PrimFloat.add x y
  | _, _ =>
      match a, b with
      | PStr s, PStr t => Ok (PStr (s ++ t))
      | PList l, PList k => Ok (PList (l ++ k))
      | _, _ => Raise (operand_error "+")
      end
  end.

Fixpoint repeat_string (s : string) (n : nat) : string :=
  match n with
  | O => ""
  | S n => s ++ repeat_string s n
  end.

Fixpoint repeat_list {A} (l : list A) (n : nat) : list A :=
  match n with
  | O => []
  | S n => l ++ repeat_list l n
  end.

(** [sys.maxsize] on a 64-bit build: the largest index, and the bound on
    the size in bytes of one object. *)
Definition maxsize : Z := 9223372036854775807.

(** The count of a repetition [seq * n] has to fit an index. *)
Definition repeat_count (n : Z) : result Z :=
  if ((n <? - maxsize - 1) || (maxsize <? n))%Z
  then Raise (OverflowError "cannot fit 'int' into an index-sized integer")
  else Ok n.

(** [s * n] for a string: a count below one gives the empty string; a
    result longer than [maxsize] is refused with an [OverflowError], and
    one that does not fit an object with its header of 49 bytes with a
    [MemoryError]. *)
Definition str_repeat (s : string) (n : Z) : result pyval :=
  bind (repeat_count n) (fun c =>
    if (c <? 1)%Z then Ok (PStr EmptyString)
    else if (maxsize / c <? Z.of_nat (String.length s))%Z
    then Raise (OverflowError "repeated string is too long")
    else if (maxsize - 49 <? Z.of_nat (String.length s) * c)%Z
    then Raise (MemoryError EmptyString)
    else Ok (PStr (repeat_string s (Z.to_nat c)))).

(** [l * n] for a list: a count below one, or an empty list, gives the
    empty list; a result whose items, of 8 bytes each, do not fit an
    object is refused with a [MemoryError]. *)
Definition list_repeat (l : list pyval) (n : Z) : result pyval :=
  bind (repeat_count n) (fun c =>
    if (c <? 1)%Z || (Z.of_nat (length l) =? 0)%Z then Ok (PList [])
    else if (maxsize / 8 <? Z.of_nat (length l) * c)%Z
    then Raise (MemoryError EmptyString)
    else Ok (PList (repeat_list l (Z.to_nat c)))).

(** [a * b]: numbers multiply, a sequence times an integer repeats.  The
    repetition is the interpreter's: it raises where the interpreter's
    own checks on the size refuse the result, and storage that these
    checks allow is taken as granted. *)
Definition py_mul (a b : pyval) : result pyval :=
  match as_num a, as_num b with
  | Some x, Some y => num_binop Z.mul PrimFloat.mul x y
  | Some (NInt n), None =>
      match b with
      | PStr s => str_repeat s n
      | PList l => list_repeat l n
      | _ => Raise (operand_error "*")
      end
  | None, Some (NInt n) =>
      match a with
      | PStr s => str_repeat s n
      | PList l => list_repeat l n
      | _ => Raise (operand_error "*")
      end
  | _, _ => Raise (operand_error "*")
  end.

(** [a - b] *)
Definition py_sub (a b : pyval) : result pyval :=
  match as_num a, as_num b with
  | Some x, Some y => num_binop Z.sub PrimFloat.sub x y
  | _, _ => Raise (operand_error "-")
  end.

(** [a / b] for two integers: the quotient rounded once to nearest-even.
    The scaled integer quotient carries at least 64 bits and a sticky bit
    for the remainder, so its rounding is the rounding of the quotient. *)
Definition int_truediv (a b : Z) : result float :=
  if (b =? 0)%Z then Raise (ZeroDivisionError "division by zero")
  else
    let k := Z.max 0 (64 + Z.log2 (Z.abs b) - Z.log2 (Z.abs a)) in
    let n := (Z.abs a * 2 ^ k)%Z in
    let q := (n / Z.abs b)%Z in
    let sticky := if (n mod Z.abs b =? 0)%Z then 0%Z else 1%Z in
    let neg := xorb (a <? 0)%Z (b <? 0)%Z in
    let m := (2 * q + sticky)%Z in
    match binary_normalize prec emax (if neg then - m else m)%Z (- (k + 1))
            neg with
    | S754_infinity _ =>
        Raise (OverflowError "integer division result too large for a float")
    | sf => Ok (SF2Prim sf)
    end.

(** [a / b] *)
Definition py_truediv (a b : pyval) : result pyval :=
  match as_num a, as_num b with
  | Some (NInt x), Some (NInt y) =>
      bind (int_truediv x y) (fun q => Ok (PFloat q))
  | Some x, Some y =>
      bind (num_float x) (fun u =>
      bind (num_float y) (fun v =>
        if (v =? 0)%float
        then Raise (ZeroDivisionError "float division by zero")
        else Ok (PFloat (u / v))))
  | _, _ => Raise (operand_error "/")
  end.

(** [- a] *)
Definition py_neg (a : pyval) : result pyval :=
  match as_num a with
  | Some (NInt n) => Ok (PInt (- n))
  | Some (NFloat f) => Ok (PFloat (- f))
  | None => Raise (TypeError "bad operand type for unary -")
  end.

(** [d[k]] on a dictionary with string keys. *)
Definition getitem {V} (d : gmap string V) (k : string) : result V :=
  match d !! k with
  | Some v => Ok v
  | None => Raise (KeyError k)
  end.

(** [k in d] *)
Definition contains_key {V} (d : gmap string V) (k : string) : bool :=
  match d !! k with
  | Some _ => true
  | None => false
  end.

(** [d.get(k, dflt)] *)
Definition dict_get {V} (d : gmap string V) (k : string) (dflt : V) : V :=
  match d !! k with
  | Some v => v
  | None => dflt
  end.

(** [l[i]] for a list and a non-negative index. *)
Definition list_getitem (l : list pyval) (i : nat) : result pyval :=
  match l !! i with
  | Some v => Ok v
  | None => Raise (IndexError "list index out of range")
  end.

(** [v[i]] for a non-negative index: lists and strings are subscriptable. *)
Definition py_getitem (v : pyval) (i : nat) : result pyval :=
  match v with
  | PList l => list_getitem l i
  | PStr s =>
      match String.get i s with
      | Some c => Ok (PStr (String c EmptyString))
      | None => Raise (IndexError "string index out of range")
      end
  | _ => Raise (TypeError "object is not subscriptable")
  end.

(** A dictionary whose iteration order matters: the items, in insertion
    order. *)
Definition odict (V : Type) : Type := list (string * V).

(** [d.get(k)]: the value of the first (and, in a dictionary, only) item
    with key [k]. *)
Fixpoint odict_get {V} (d : odict V) (k : string) : option V :=
  match d with
  | [] => None
  | (k', v) :: rest => if String.eqb k' k then Some v else odict_get rest k
  end.

(** [d[k] = v]: replaces in place, or appends a new item. *)
Fixpoint odict_set {V} (d : odict V) (k : string) (v : V) : odict V :=
  match d with
  | [] => [(k, v)]
  | (k', v') :: rest =>
      if String.eqb k' k then (k', v) :: rest
      else (k', v') :: odict_set rest k v
  end.

(** [d.keys()] *)
Definition odict_keys {V} (d : odict V) : list string := map fst d.

End Py.

Export Py.

Notation "'do' x <- e ; k" := (bind e (fun x => k))
  (at level 10, x name, e at level 100, k at level 200).

(* ===================================================================== *)
(** * firecrown/connector/mapping.py                                      *)
(* ===================================================================== *)

Module Mapping.

(** [require_type(val, typ, typename)] *)
Definition require_type (val : pyval) (typ : pytype) (typename : string)
    : result pyval :=
  if pytype_eqb (type_of val) typ then Ok val
  else Raise (TypeError (typename ++ " value is required")).

Definition require_float (val : pyval) : result pyval :=
  require_type val TFloat "float".

Definition require_string (val : pyval) : result pyval :=
  require_type val TStr "string".

(** The attributes of a [PyCCLCosmologyConstants] object. *)
Record PyCCLCosmologyConstants : Type := {
  Omega_c : pyval;
  Omega_b : pyval;
  h : pyval;
  A_s : pyval;
  sigma8 : pyval;
  n_s : pyval;
  Omega_k : pyval;
  Omega_g : pyval;
  Neff : pyval;
  m_nu : pyval;
  m_nu_type : pyval;
  w0 : pyval;
  wa : pyval;
  T_CMB : pyval
}.

(** The keyword arguments of [PyCCLCosmologyConstants.__init__]; [A_s] and
    [sigma8] are [PNone] when the caller leaves them out. *)
Record init_args : Type := {
  arg_Omega_c : pyval;
  arg_Omega_b : pyval;
  arg_h : pyval;
  arg_A_s : pyval;
  arg_sigma8 : pyval;
  arg_n_s : pyval;
  arg_Omega_k : pyval;
  arg_Neff : pyval;
  arg_m_nu : pyval;
  arg_m_nu_type : pyval;
  arg_w0 : pyval;
  arg_wa : pyval;
  arg_T_CMB : pyval
}.

Definition amplitude_error : exn :=
  ValueError "Exactly one of A_s and sigma8 must be supplied".

(** The error of [require_float]. *)
Definition float_required : exn := TypeError "float value is required".

(** Lines 78-85: the amplitude pair stored by the constructor. *)
Definition init_amplitude (A_s sigma8 : pyval) : result (pyval * pyval) :=
  if negb (is_None A_s) && negb (is_None sigma8) then Raise amplitude_error
  else if is_None sigma8 then
    do a <- require_float A_s; Ok (a, PNone)
  else
    do s <- require_float sigma8; Ok (PNone, s).

(** [PyCCLCosmologyConstants.__init__] *)
Definition init (a : init_args) : result PyCCLCosmologyConstants :=
  do Omega_c <- require_float (arg_Omega_c a);
  do Omega_b <- require_float (arg_Omega_b a);
  do h <- require_float (arg_h a);
  do amp <- init_amplitude (arg_A_s a) (arg_sigma8 a);
  do n_s <- require_float (arg_n_s a);
  do Omega_k <- require_float (arg_Omega_k a);
  let Omega_g := PNone in
  do Neff <- require_float (arg_Neff a);
  do m_nu <- require_float (arg_m_nu a);
  do m_nu_type <- require_string (arg_m_nu_type a);
  do w0 <- require_float (arg_w0 a);
  do wa <- require_float (arg_wa a);
  do T_CMB <- require_float (arg_T_CMB a);
  Ok {| Omega_c := Omega_c; Omega_b := Omega_b; h := h;
        A_s := fst amp; sigma8 := snd amp;
        n_s := n_s; Omega_k := Omega_k; Omega_g := Omega_g;
        Neff := Neff; m_nu := m_nu; m_nu_type := m_nu_type;
        w0 := w0; wa := wa; T_CMB := T_CMB |}.

(** [from_cosmosis_camb] *)
Definition from_cosmosis_camb (cosmosis_params : gmap string pyval)
    : result PyCCLCosmologyConstants :=
  do Omega_c <- getitem cosmosis_params "omega_c";
  do Omega_b <- getitem cosmosis_params "omega_b";
  do h <- getitem cosmosis_params "h0";
  do sigma8 <- getitem cosmosis_params "sigma_8";
  do n_s <- getitem cosmosis_params "n_s";
  do Omega_k <- getitem cosmosis_params "omega_k";
  do Neff <- py_add (dict_get cosmosis_params "delta_neff" (PFloat 0))
                    (PFloat 3.046);
  do omega_nu <- getitem cosmosis_params "omega_nu";
  do t1 <- py_mul omega_nu h;
  do t2 <- py_mul t1 h;
  do m_nu <- py_mul t2 (PFloat 93.14);
  let m_nu_type := PStr "normal" in
  do w0 <- getitem cosmosis_params "w";
  do wa <- getitem cosmosis_params "wa";
  do neg_wa <- py_neg wa;
  init {| arg_Omega_c := Omega_c; arg_Omega_b := Omega_b; arg_h := h;
          arg_A_s := PNone; arg_sigma8 := sigma8;
          arg_n_s := n_s; arg_Omega_k := Omega_k;
          arg_Neff := Neff; arg_m_nu := m_nu; arg_m_nu_type := m_nu_type;
          arg_w0 := w0; arg_wa := neg_wa; arg_T_CMB := PFloat 2.7255 |}.

(** The raw keys read with [cosmosis_params[...]], in the order read. *)
Definition required_keys : list string :=
  ["omega_c"; "omega_b"; "h0"; "sigma_8"; "n_s"; "omega_k";
   "omega_nu"; "w"; "wa"].

(** The first of the subscripted keys that the block lacks. *)
Definition first_missing (cosmosis_params : gmap string pyval)
    : option string :=
  List.find (fun k => negb (contains_key cosmosis_params k)) required_keys.

(** The keys subscripted before any arithmetic, lines 121-126. *)
Definition early_keys : list string :=
  ["omega_c"; "omega_b"; "h0"; "sigma_8"; "n_s"; "omega_k"].

(** The sum of line 129. *)
Definition Neff_of (cosmosis_params : gmap string pyval) : result pyval :=
  py_add (dict_get cosmosis_params "delta_neff" (PFloat 0)) (PFloat 3.046).

(** The product of line 130, for the values of [omega_nu] and [h0]. *)
Definition m_nu_of (omega_nu h : pyval) : result pyval :=
  do t1 <- py_mul omega_nu h;
  do t2 <- py_mul t1 h;
  py_mul t2 (PFloat 93.14).

(** Modelled from the spec: the mapper back into the CosmoSIS convention
    is not among the source files; for [wa] the spec describes it as the
    same sign flip, applied to the record's value. *)
Definition to_cosmosis_wa (wa : pyval) : result pyval := py_neg wa.

(** The end-to-end scenario's input block. *)
Definition scenario_params : gmap string pyval :=
  list_to_map
    [("omega_c", PFloat 0.25); ("omega_b", PFloat 0.05); ("h0", PFloat 0.7);
     ("sigma_8", PFloat 0.8); ("n_s", PFloat 0.96); ("omega_k", PFloat 0);
     ("w", PFloat (-1)); ("wa", PFloat 0); ("omega_nu", PFloat 0)].

(** Keyword arguments with the given amplitude pair and floats
    elsewhere. *)
Definition args_with (A_s sigma8 : pyval) : init_args :=
  {| arg_Omega_c := PFloat 0.25; arg_Omega_b := PFloat 0.05;
     arg_h := PFloat 0.7; arg_A_s := A_s; arg_sigma8 := sigma8;
     arg_n_s := PFloat 0.96; arg_Omega_k := PFloat 0;
     arg_Neff := PFloat 3.046; arg_m_nu := PFloat 0;
     arg_m_nu_type := PStr "normal"; arg_w0 := PFloat (-1);
     arg_wa := PFloat 0; arg_T_CMB := PFloat 2.7255 |}.

(** The scenario's block without [omega_nu] and with a [delta_neff] that
    is not a number. *)
Definition ill_typed_params : gmap string pyval :=
  <["delta_neff" := PStr "none"]> (delete "omega_nu" scenario_params).

(** The scenario's block without [w] and with the integer [0] for
    [omega_nu]. *)
Definition int_params : gmap string pyval :=
  <["omega_nu" := PInt 0]> (delete "w" scenario_params).

(** The scenario's block with a one-element list for [omega_nu] and the
    integer [2 ** 62] for [h0]. *)
Definition oversized_params : gmap string pyval :=
  <["omega_nu" := PList [PFloat 0.1]]>
    (<["h0" := PInt (2 ^ 62)]> scenario_params).

(** The scenario's block with the CosmoSIS value [wa = -0.1]. *)
Definition flipped_params : gmap string pyval :=
  <["wa" := PFloat (-0.1)]> scenario_params.

(** [redshift_to_scale_factor(z, p_k)] for a one-dimensional array [z] of
    doubles and a two-dimensional array [p_k], given as its rows:
    [np.flip] of the element-wise [1.0 / (1.0 + z)], and [np.flipud]. *)
Definition redshift_to_scale_factor (z : list float)
    (p_k : list (list float)) : list float * list (list float) :=
  let scale := reverse (map (fun x => (1 / (1 + x))%float) z) in
  let p_k_out := reverse p_k in
  (scale, p_k_out).

(** [PyCCLCosmologyConstants.asdict] *)
Definition asdict (self : PyCCLCosmologyConstants) : gmap string pyval :=
  list_to_map
    [("Omega_c", Omega_c self); ("Omega_b", Omega_b self); ("h", h self);
     ("A_s", A_s self); ("sigma8", sigma8 self); ("n_s", n_s self);
     ("Omega_k", Omega_k self); ("Omega_g", Omega_g self);
     ("Neff", Neff self); ("m_nu", m_nu self);
     ("m_nu_type", m_nu_type self); ("w0", w0 self); ("wa", wa self);
     ("T_CMB", T_CMB self)].

(** The keyword-only parameters of [__init__] (lines 50-66): those
    without a default, and the two that default to [None]. *)
Definition required_parameters : list string :=
  ["Omega_c"; "Omega_b"; "h"; "n_s"; "Omega_k"; "Neff"; "m_nu";
   "m_nu_type"; "w0"; "wa"; "T_CMB"].

Definition optional_parameters : list string := ["A_s"; "sigma8"].

(** [PyCCLCosmologyConstants] called with a dictionary of keyword
    arguments: the keywords are bound to the parameters of the signature,
    an unknown keyword or a missing parameter without default is a
    [TypeError], and then the body runs. *)
Definition init_kwargs (kwargs : gmap string pyval)
    : result PyCCLCosmologyConstants :=
  if negb (forallb
             (fun k => bool_decide
                         (k ∈ required_parameters ++ optional_parameters))
             (map fst (map_to_list kwargs)))
  then Raise (TypeError "got an unexpected keyword argument")
  else if negb (forallb (contains_key kwargs) required_parameters)
  then Raise (TypeError "missing required keyword-only argument")
  else
    init {| arg_Omega_c := dict_get kwargs "Omega_c" PNone;
            arg_Omega_b := dict_get kwargs "Omega_b" PNone;
            arg_h := dict_get kwargs "h" PNone;
            arg_A_s := dict_get kwargs "A_s" PNone;
            arg_sigma8 := dict_get kwargs "sigma8" PNone;
            arg_n_s := dict_get kwargs "n_s" PNone;
            arg_Omega_k := dict_get kwargs "Omega_k" PNone;
            arg_Neff := dict_get kwargs "Neff" PNone;
            arg_m_nu := dict_get kwargs "m_nu" PNone;
            arg_m_nu_type := dict_get kwargs "m_nu_type" PNone;
            arg_w0 := dict_get kwargs "w0" PNone;
            arg_wa := dict_get kwargs "wa" PNone;
            arg_T_CMB := dict_get kwargs "T_CMB" PNone |}.

(** The error of [require_string]. *)
Definition string_required : exn := TypeError "string value is required".

(** The keys [from_cosmosis_camb] looks at. *)
Definition keys_read : list string := required_keys ++ ["delta_neff"].

End Mapping.

(* ===================================================================== *)
(** * firecrown/parser.py: the parameter block                            *)
(* ===================================================================== *)

Module Parser.

(** The body of the loop over [data['parameters'].items()]: the value
    stored under the key. *)
Definition reduce_value (val : pyval) : result pyval :=
  if is_list val && negb (is_str val) then py_getitem val 1
  else Ok val.

(** The loop, filling [params] item by item. *)
Fixpoint reduce_items (items : list (string * pyval))
    (params : gmap string pyval) : result (gmap string pyval) :=
  match items with
  | [] => Ok params
  | (p, val) :: rest =>
      do v <- reduce_value val;
      reduce_items rest (<[p := v]> params)
  end.

(** Lines 46-52 of [parse]: the new value of [data['parameters']].  The
    items are visited in the dictionary's order; every item is visited
    once. *)
Definition parse_parameters (parameters : gmap string pyval)
    : result (gmap string pyval) :=
  reduce_items (map_to_list parameters) ∅.

(** The value the loop stores for [val], when it stores one: the element
    at index 1 of a list, the value itself otherwise. *)
Definition fiducial (val : pyval) : option pyval :=
  match val with
  | PList l => l !! 1
  | _ => Some val
  end.

Definition index_error : exn := IndexError "list index out of range".

(** A sampler block with two sampled ranges. *)
Definition example_block : gmap string pyval :=
  list_to_map
    [("omega_c", PList [PFloat 0.2; PFloat 0.25; PFloat 0.3]);
     ("h0", PFloat 0.7);
     ("sigma_8", PList [PFloat 0.7; PFloat 0.8; PFloat 0.9]);
     ("label", PStr "run")].

(** A parsed configuration: a scalar or list, or a mapping from keys to
    configurations, its items in insertion order. *)
Inductive cfg : Type :=
  | CVal (v : pyval)
  | CDict (items : list (string * cfg)).

(** Induction over a configuration and, with it, over the values of a
    mapping. *)
Fixpoint cfg_nested_ind (P : cfg -> Prop)
    (HV : forall v, P (CVal v))
    (HD : forall items, Forall (fun kv => P (snd kv)) items -> P (CDict items))
    (c : cfg) {struct c} : P c :=
  match c with
  | CVal v => HV v
  | CDict items =>
      HD items
        ((fix go (l : list (string * cfg))
            : Forall (fun kv => P (snd kv)) l :=
            match l with
            | [] => @List.Forall_nil _ (fun kv => P (snd kv))
            | (k, v) :: rest =>
                @List.Forall_cons _ (fun kv => P (snd kv)) (k, v) rest
                  (cfg_nested_ind P HV HD v) (go rest)
            end) items)
  end.

(** [isinstance(v, collections.abc.Mapping)] *)
Definition is_mapping (v : cfg) : bool :=
  match v with CDict _ => true | CVal _ => false end.

(** [d.get(k, dflt)] on whatever [d] is: only a mapping has [get]. *)
Definition cfg_get (d : cfg) (k : string) (dflt : cfg) : result cfg :=
  match d with
  | CDict items => Ok (default dflt (odict_get items k))
  | CVal _ => Raise (AttributeError "get")
  end.

(** [d[k] = v] on whatever [d] is: no scalar or list takes a string
    key. *)
Definition cfg_setitem (d : cfg) (k : string) (v : cfg) : result cfg :=
  match d with
  | CDict items => Ok (CDict (odict_set items k v))
  | CVal _ => Raise (TypeError "object does not support item assignment")
  end.

(** [update_dict(d, u)] of [parse], lines 36-42; the inner loop is the
    [for] over [u.items()], and the value returned is [d] as updated. *)
Fixpoint update_dict (d : cfg) (u : cfg) {struct u} : result cfg :=
  match u with
  | CVal _ => Raise (AttributeError "items")
  | CDict items =>
      (fix loop (items : list (string * cfg)) (d : cfg) {struct items}
         : result cfg :=
         match items with
         | [] => Ok d
         | (k, v) :: rest =>
             match v with
             | CDict _ =>
                 do sub <- cfg_get d k (CDict []);
                 do m <- update_dict sub v;
                 do d' <- cfg_setitem d k m;
                 loop rest d'
             | CVal _ =>
                 do d' <- cfg_setitem d k v;
                 loop rest d'
             end
         end) items d
  end.

(** One turn of the loop of [update_dict]. *)
Definition update_item (k : string) (v : cfg) (d : cfg) : result cfg :=
  if is_mapping v then
    do sub <- cfg_get d k (CDict []);
    do m <- update_dict sub v;
    cfg_setitem d k m
  else cfg_setitem d k v.

(** The loop of [update_dict] over the items of [u]. *)
Fixpoint update_items (items : list (string * cfg)) (d : cfg)
    : result cfg :=
  match items with
  | [] => Ok d
  | (k, v) :: rest => do d' <- update_item k v d; update_items rest d'
  end.

(** A mapping has each key once, at every level. *)
Fixpoint unique_keys (c : cfg) : Prop :=
  match c with
  | CVal _ => True
  | CDict items =>
      NoDup (map fst items)
      /\ (fix all (items : list (string * cfg)) : Prop :=
            match items with
            | [] => True
            | (_, v) :: rest => unique_keys v /\ all rest
            end) items
  end.

(** A parsed file, the data to bring in, and the two merged. *)
Definition config_items : list (string * cfg) :=
  [("parameters", CDict [("omega_c", CVal (PFloat 0.25));
                         ("h0", CVal (PFloat 0.7))]);
   ("two_point", CDict [("module", CVal (PStr "firecrown.tp"))])].

Definition memory_items : list (string * cfg) :=
  [("parameters", CDict [("h0", CVal (PFloat 0.68));
                         ("n_s", CVal (PFloat 0.96))]);
   ("emcee", CDict [("n_steps", CVal (PInt 10))])].

Definition merged_items : list (string * cfg) :=
  [("parameters", CDict [("omega_c", CVal (PFloat 0.25));
                         ("h0", CVal (PFloat 0.68));
                         ("n_s", CVal (PFloat 0.96))]);
   ("two_point", CDict [("module", CVal (PStr "firecrown.tp"))]);
   ("emcee", CDict [("n_steps", CVal (PInt 10))])].

(** [update_dict] changes [d] in place, and what a dictionary holds under
    a key is an object that another key, or another dictionary, may hold
    too (a YAML anchor with its aliases is loaded as one object).  The
    definitions below keep the objects apart from the values: a store of
    dictionary objects, and [update_dict] writing into it.  The data [u]
    is only read, and stays a [cfg]. *)

(** The address of a dictionary object in the store. *)
Abbreviation loc := nat (only parsing).

(** What a dictionary holds under a key: a scalar or list, or a
    dictionary object. *)
Inductive hval : Type :=
  | HVal (v : pyval)
  | HRef (l : loc).

(** The store: the items of every dictionary object, by address. *)
Abbreviation store := (list (odict hval)) (only parsing).

(** The items of the object at [l]. *)
Definition items_at (h : store) (l : loc) : odict hval :=
  default [] (h !! l).

(** [d.get(k, {})]: what [d] holds under [k], or else the new, empty
    dictionary of the second argument, placed at the next free address. *)
Definition store_get (h : store) (d : hval) (k : string)
    : result (store * hval) :=
  match d with
  | HRef l =>
      match odict_get (items_at h l) k with
      | Some x => Ok (h, x)
      | None => Ok (h ++ [[]], HRef (length h))
      end
  | HVal _ => Raise (AttributeError "get")
  end.

(** [d[k] = x]: a write into the object [d]. *)
Definition store_setitem (h : store) (d : hval) (k : string) (x : hval)
    : result store :=
  match d with
  | HRef l => Ok (<[l := odict_set (items_at h l) k x]> h)
  | HVal _ => Raise (TypeError "object does not support item assignment")
  end.

(** [update_dict(d, u)], lines 36-42, on the store: every turn of the loop
    writes into the one object [d], the recursive call writes into the
    object that [d] holds under [k], and what is returned is [d]
    itself. *)
Fixpoint update_dict_in_place (h : store) (d : hval) (u : cfg) {struct u}
    : result (store * hval) :=
  match u with
  | CVal _ => Raise (AttributeError "items")
  | CDict items =>
      (fix loop (items : list (string * cfg)) (h : store) {struct items}
         : result (store * hval) :=
         match items with
         | [] => Ok (h, d)
         | (k, v) :: rest =>
             match v with
             | CDict _ =>
                 do g <- store_get h d k;
                 do m <- update_dict_in_place (fst g) (snd g) v;
                 do h' <- store_setitem (fst m) d k (snd m);
                 loop rest h'
             | CVal x =>
                 do h' <- store_setitem h d k (HVal x);
                 loop rest h'
             end
         end) items h
  end.

(** One turn of that loop, and the loop. *)
Definition update_item_in_place (k : string) (v : cfg) (d : hval)
    (h : store) : result store :=
  match v with
  | CDict _ =>
      do g <- store_get h d k;
      do m <- update_dict_in_place (fst g) (snd g) v;
      store_setitem (fst m) d k (snd m)
  | CVal x => store_setitem h d k (HVal x)
  end.

Fixpoint update_items_in_place (items : list (string * cfg)) (d : hval)
    (h : store) : result (store * hval) :=
  match items with
  | [] => Ok (h, d)
  | (k, v) :: rest =>
      do h' <- update_item_in_place k v d h;
      update_items_in_place rest d h'
  end.

(** [repr h x t F]: in the store [h], the value [x] is the configuration
    [t], built from the dictionary objects at the addresses [F], each of
    which is met once on the way down from [x]: no object is held
    twice.  [reprs] is the same for the items of a dictionary. *)
Inductive repr (h : store) : hval -> cfg -> gset loc -> Prop :=
  | repr_val v F :
      F = ∅ -> repr h (HVal v) (CVal v) F
  | repr_ref l es ts F0 F :
      h !! l = Some es -> reprs h es ts F0 -> l ∉ F0 -> F = {[l]} ∪ F0 ->
      repr h (HRef l) (CDict ts) F
with reprs (h : store)
    : odict hval -> list (string * cfg) -> gset loc -> Prop :=
  | reprs_nil F :
      F = ∅ -> reprs h [] [] F
  | reprs_cons k x t es ts F1 F2 F :
      repr h x t F1 -> reprs h es ts F2 -> F1 ## F2 -> F = F1 ∪ F2 ->
      reprs h ((k, x) :: es) ((k, t) :: ts) F.

(** Induction over [repr] and [reprs] together. *)
Scheme repr_reprs_ind := Minimality for repr Sort Prop
  with reprs_repr_ind := Minimality for reprs Sort Prop.

Combined Scheme repr_mutual_ind from repr_reprs_ind, reprs_repr_ind.

(** [in_place h d F rt r]: started on [d] in the store [h], where [d] is
    built from the addresses [F], the run [r] in place ends as the run
    [rt] on configurations does: with the same error, or returning [d]
    itself, which then is the returned configuration, built from
    addresses of [F] and new ones, every object that was in the store
    outside [F] being as it was. *)
Definition in_place (h : store) (d : hval) (F : gset loc)
    (rt : result cfg) (r : result (store * hval)) : Prop :=
  match rt with
  | Ok t' =>
      exists h' F',
        r = Ok (h', d)
        /\ repr h' d t' F'
        /\ (forall l, l ∈ F' -> l ∈ F \/ length h <= l)
        /\ length h <= length h'
        /\ (forall l, l < length h -> l ∉ F -> h' !! l = h !! l)
  | Raise e => r = Raise e
  end.

(** The parsed file [config_items] as three objects. *)
Definition config_store : store :=
  [ [("parameters", HRef 1); ("two_point", HRef 2)];
    [("omega_c", HVal (PFloat 0.25)); ("h0", HVal (PFloat 0.7))];
    [("module", HVal (PStr "firecrown.tp"))] ].

(** A file in which [defaults] and [two_point] are one object, as an
    anchor and its alias are, and data that names [two_point] only. *)
Definition shared_store : store :=
  [ [("defaults", HRef 1); ("two_point", HRef 1)];
    [("module", HVal (PStr "firecrown.tp"))] ].

Definition shared_update_items : list (string * cfg) :=
  [("two_point", CDict [("order", CVal (PInt 2))])].

End Parser.

(* ===================================================================== *)
(** * firecrown/likelihood/gauss_family/student_t.py                      *)
(* ===================================================================== *)

Module StudentT.
Section StudentT.
(** What the class takes from outside these files: the statistics, the
    state of the base class [GaussFamily], the oracle's cosmology object,
    and NumPy's [log] on doubles. *)
Variables Statistic GaussFamily Cosmology : Type.
Variable np_log : float -> float.

(** A [StudentT] object: the inherited state and the attribute [nu]. *)
Record StudentT : Type := {
  base : GaussFamily;
  nu : pyval
}.

(** The inherited method [compute_chisq(self, cosmo, params)]. *)
Variable compute_chisq :
  StudentT -> Cosmology -> gmap string pyval -> result pyval.

(** The error of line 27.  [super] without call parentheses is the builtin
    type, so [super.__init__] is that type's own initialiser, and the call
    hands it [statistics] as the object to initialise; an object that is
    not a [super] object is refused. *)
Definition super_receiver_error : exn :=
  TypeError
    "descriptor '__init__' requires a 'super' object but received a 'list'".

(** [super.__init__(statistics)], for a list of statistics. *)
Definition super_init (statistics : list Statistic) : result unit :=
  Raise super_receiver_error.

(** [StudentT.__init__(self, statistics, nu)]: [self] is the object before
    the call, the result is the object after it.  The initialiser of
    [GaussFamily] is not called on any path. *)
Definition init (self : StudentT) (statistics : list Statistic)
    (nu0 : pyval) : result StudentT :=
  do _ <- super_init statistics;
  Ok {| base := base self; nu := nu0 |}.

(** [StudentT(statistics, nu)]: the new object [blank] is initialised and
    returned. *)
Definition construct (blank : StudentT) (statistics : list Statistic)
    (nu0 : pyval) : result StudentT :=
  init blank statistics nu0.

(** [np.log(v)] on a number. *)
Definition np_log_val (v : pyval) : result pyval :=
  match as_num v with
  | Some x => do f <- num_float x; Ok (PFloat (np_log f))
  | None => Raise (TypeError "loop of ufunc does not support argument")
  end.

(** [StudentT.compute_loglike(self, cosmo, params)] *)
Definition compute_loglike (self : StudentT) (cosmo : Cosmology)
    (params : gmap string pyval) : result pyval :=
  do chi2 <- compute_chisq self cosmo params;
  do a <- py_mul (PFloat (-0.5)) (nu self);
  do d <- py_sub (nu self) (PFloat 1);
  do q <- py_truediv chi2 d;
  do s <- py_add (PFloat 1) q;
  do l <- np_log_val s;
  py_mul a l.

End StudentT.

Arguments base {GaussFamily} _.
Arguments nu {GaussFamily} _.
Arguments super_init {Statistic} statistics.
Arguments init {Statistic GaussFamily} self statistics nu0.
Arguments construct {Statistic GaussFamily} blank statistics nu0.
Arguments compute_loglike {GaussFamily Cosmology} np_log compute_chisq
  self cosmo params.

(** The log-likelihood as a function of the doubles [nu] and [chi2]. *)
Definition loglike (np_log : float -> float) (nu chi2 : float) : float :=
  (-0.5 * nu * np_log (1 + chi2 / (nu - 1)))%float.

(** For the examples: a base class whose state is the list of statistics,
    a chi-square of [2.0], and, in place of NumPy's [log], some function
    on doubles. *)
Definition example_chisq (self : StudentT (list unit)) (cosmo : unit)
    (params : gmap string pyval) : result pyval := Ok (PFloat 2).

Definition example_log : float -> float := PrimFloat.sqrt.

End StudentT.

(* ===================================================================== *)
(** * tjpcosmo/models/twopoint/calculator.py                              *)
(* ===================================================================== *)

Module TwoPoint.

(** The keyword arguments handed to the oracle's [ccl.Parameters]; the
    amplitude not passed is [None]. *)
Record CCLParameters : Type := {
  ccl_Omega_c : pyval;
  ccl_Omega_b : pyval;
  ccl_Omega_k : pyval;
  ccl_w0 : pyval;
  ccl_wa : pyval;
  ccl_sigma8 : option pyval;
  ccl_A_s : option pyval;
  ccl_n_s : pyval;
  ccl_h : pyval
}.

(** [cosmo_base.attr] on a parameter set that holds its parameters by
    name. *)
Definition getattr (cosmo_base : gmap string pyval) (attr : string)
    : result pyval :=
  match cosmo_base !! attr with
  | Some v => Ok v
  | None => Raise (AttributeError attr)
  end.

(** ['key' in cosmo_base] *)
Definition contains (cosmo_base : gmap string pyval) (key : string) : bool :=
  contains_key cosmo_base key.

Definition massive_neutrino_error : exn :=
  ValueError "cosmo_base doesn't handle massive neutrinos yet".

Definition both_amplitudes_error : exn :=
  ValueError "Specifying both sigma8 and A_s: pick one".

Definition no_amplitude_error : exn :=
  ValueError "Need either sigma 8 or A_s in pyccl.".

(** Lines 46-55: the amplitude test, given what was read, and the call of
    [ccl.Parameters]. *)
Definition amplitude_branch (omega_c omega_b omega_k w wa h0 n_s : pyval)
    (sigma8 A_s : pyval) : result CCLParameters :=
  if truthy sigma8 && truthy A_s then Raise both_amplitudes_error
  else if truthy sigma8 then
    Ok {| ccl_Omega_c := omega_c; ccl_Omega_b := omega_b;
          ccl_Omega_k := omega_k; ccl_w0 := w; ccl_wa := wa;
          ccl_sigma8 := Some sigma8; ccl_A_s := None;
          ccl_n_s := n_s; ccl_h := h0 |}
  else if truthy A_s then
    Ok {| ccl_Omega_c := omega_c; ccl_Omega_b := omega_b;
          ccl_Omega_k := omega_k; ccl_w0 := w; ccl_wa := wa;
          ccl_sigma8 := None; ccl_A_s := Some A_s;
          ccl_n_s := n_s; ccl_h := h0 |}
  else Raise no_amplitude_error.

(** [convert_cosmobase_to_ccl] *)
Definition convert_cosmobase_to_ccl (cosmo_base : gmap string pyval)
    : result CCLParameters :=
  do omega_c <- getattr cosmo_base "omega_c";
  do omega_b <- getattr cosmo_base "omega_b";
  do omega_k <- getattr cosmo_base "omega_k";
  do n_rel <- getattr cosmo_base "omega_n_rel";
  do n_mass <- getattr cosmo_base "omega_n_mass";
  do n_sum <- py_add n_rel n_mass;
  if truthy n_sum then Raise massive_neutrino_error
  else
    do w <- getattr cosmo_base "w0";
    do wa <- getattr cosmo_base "wa";
    do h0 <- getattr cosmo_base "h";
    do sigma8 <- (if contains cosmo_base "sigma_8"
                  then getattr cosmo_base "sigma_8" else Ok (PFloat 0));
    do A_s <- (if contains cosmo_base "a_s"
               then getattr cosmo_base "a_s" else Ok (PFloat 0));
    do n_s <- getattr cosmo_base "n_s";
    amplitude_branch omega_c omega_b omega_k w wa h0 n_s sigma8 A_s.

(** A flat parameter set with [sigma_8 = 0.0] and no [a_s]. *)
Definition zero_sigma8_base : gmap string pyval :=
  list_to_map
    [("omega_c", PFloat 0.25); ("omega_b", PFloat 0.05);
     ("omega_k", PFloat 0); ("omega_n_rel", PFloat 0);
     ("omega_n_mass", PFloat 0); ("w0", PFloat (-1)); ("wa", PFloat 0);
     ("h", PFloat 0.7); ("sigma_8", PFloat 0); ("n_s", PFloat 0.96)].

Section Calculator.
(** From outside these files: the systematic objects and their three
    classes, the record a systematic is configured from and the factory
    [Systematic.from_info], the metadata, what [make_source] builds, and
    the base class's initialiser.  What the factory returns is stored as
    it is, so the test [sys is None] is kept as a test on the stored
    object. *)
Variables Systematic Info Metadata SourceBody : Type.
Variables isinstance_OutputSystematic isinstance_CosmologySystematic
          isinstance_SourceSystematic : Systematic -> bool.
Variable from_info : Info -> result Systematic.
Variable sys_is_None : Systematic -> bool.

(** A source object: what [make_source] built, and its [systematics]
    list. *)
Record Source : Type := {
  src_body : SourceBody;
  src_systematics : list Systematic
}.

Variable make_source : string -> pyval -> Metadata -> result Source.

(** An entry of [config['sources']]: the keys ['type'] and
    ['systematics'], each possibly absent. *)
Record SourceInfo : Type := {
  si_type : option pyval;
  si_systematics : option (list string)
}.

(** The configuration of one analysis. *)
Record Config : Type := {
  cfg_systematics : option (odict Info);
  cfg_sources : option (odict SourceInfo)
}.

(** The attributes of a [TwoPointTheoryCalculator]; [metadata] is [None]
    while the attribute is not set. *)
Record Calculator : Type := {
  metadata : option Metadata;
  systematics : odict Systematic;
  output_systematics : odict Systematic;
  cosmology_systematics : odict Systematic;
  source_systematics : odict Systematic;
  sources : list Source
}.

Variable TheoryCalculator_init : Config -> Metadata -> result Calculator.

(** [{name: sys for name, sys in d.items() if isinstance(sys, C)}] *)
Definition select (isinstance_C : Systematic -> bool)
    (d : odict Systematic) : odict Systematic :=
  filter (fun item => isinstance_C (snd item) = true) d.

(** The first loop of [setup_systematics]. *)
Fixpoint build_systematics (items : odict Info) (table : odict Systematic)
    : result (odict Systematic) :=
  match items with
  | [] => Ok table
  | (name, info) :: rest =>
      do sys <- from_info info;
      build_systematics rest (odict_set table name sys)
  end.

(** [setup_systematics(self, sys_config)] *)
Definition setup_systematics (self : Calculator) (sys_config : odict Info)
    : result Calculator :=
  do table <- build_systematics sys_config [];
  Ok {| metadata := metadata self;
        systematics := table;
        output_systematics := select isinstance_OutputSystematic table;
        cosmology_systematics := select isinstance_CosmologySystematic table;
        source_systematics := select isinstance_SourceSystematic table;
        sources := sources self |}.

Definition unresolved_error (sys_name name : string) : exn :=
  ValueError ("Systematic with name " ++ sys_name
    ++ " was specified for source " ++ name
    ++ " but not defined in parameter file systematics section").

Definition unused_error (sys_name : string) : exn :=
  ValueError ("Systematic with name " ++ sys_name
    ++ " was specified in param file but never used").

(** [self.systematics.get(sys_name)] with the test [sys is None] that
    follows it: the object to attach, when the name has one. *)
Definition resolve (table : odict Systematic) (sys_name : string)
    : option Systematic :=
  match odict_get table sys_name with
  | Some sys => if sys_is_None sys then None else Some sys
  | None => None
  end.

(** The inner loop of [setup_sources], over one source's [sys_names]. *)
Fixpoint attach (table : odict Systematic) (name : string)
    (sys_names : list string) (source : Source) (used : gset string)
    : result (Source * gset string) :=
  match sys_names with
  | [] => Ok (source, used)
  | sys_name :: rest =>
      match resolve table sys_name with
      | None => Raise (unresolved_error sys_name name)
      | Some sys =>
          attach table name rest
            {| src_body := src_body source;
               src_systematics := src_systematics source ++ [sys] |}
            ({[sys_name]} ∪ used)
      end
  end.

(** The outer loop of [setup_sources], over [info.items()]. *)
Fixpoint build_sources (self : Calculator) (info : odict SourceInfo)
    (built : list Source) (used : gset string)
    : result (list Source * gset string) :=
  match info with
  | [] => Ok (built, used)
  | (name, source_info) :: rest =>
      do stype <- match si_type source_info with
                  | Some t => Ok t
                  | None => Raise (KeyError "type")
                  end;
      do md <- match metadata self with
               | Some md => Ok md
               | None => Raise (AttributeError "metadata")
               end;
      do source <- make_source name stype md;
      let sys_names := default [] (si_systematics source_info) in
      do r <- attach (systematics self) name sys_names source used;
      build_sources self rest (built ++ [fst r]) (snd r)
  end.

(** The last loop of [setup_sources], over [source_systematics.keys()]. *)
Fixpoint check_used (sys_names : list string) (used : gset string)
    : result unit :=
  match sys_names with
  | [] => Ok tt
  | sys_name :: rest =>
      if decide (sys_name ∈ used) then check_used rest used
      else Raise (unused_error sys_name)
  end.

(** [setup_sources(self, config)] *)
Definition setup_sources (self : Calculator) (config : Config)
    : result Calculator :=
  do info <- match cfg_sources config with
             | Some info => Ok info
             | None => Raise (KeyError "sources")
             end;
  do r <- build_sources self info [] ∅;
  do _ <- check_used (odict_keys (source_systematics self)) (snd r);
  Ok {| metadata := metadata self;
        systematics := systematics self;
        output_systematics := output_systematics self;
        cosmology_systematics := cosmology_systematics self;
        source_systematics := source_systematics self;
        sources := fst r |}.

(** [TwoPointTheoryCalculator.__init__(self, config, metadata)] *)
Definition init (config : Config) (md : Metadata) : result Calculator :=
  do self <- TheoryCalculator_init config md;
  do sys_config <- match cfg_systematics config with
                   | Some c => Ok c
                   | None => Raise (KeyError "systematics")
                   end;
  do self <- setup_systematics self sys_config;
  do self <- setup_sources self config;
  Ok {| metadata := Some md;
        systematics := systematics self;
        output_systematics := output_systematics self;
        cosmology_systematics := cosmology_systematics self;
        source_systematics := source_systematics self;
        sources := sources self |}.

(** The names a source's entry lists. *)
Definition referenced (source_info : SourceInfo) : list string :=
  default [] (si_systematics source_info).

(** Some source lists a name for which the table has no object: the name
    is absent from it, or what it holds there is [None]. *)
Definition unresolved (table : odict Systematic) (info : odict SourceInfo)
    (name sys_name : string) : Prop :=
  ∃ source_info, (name, source_info) ∈ info
    ∧ sys_name ∈ referenced source_info
    ∧ resolve table sys_name = None.

(** A name in the given bucket that no source lists. *)
Definition unused (bucket : odict Systematic) (info : odict SourceInfo)
    (sys_name : string) : Prop :=
  sys_name ∈ odict_keys bucket
    ∧ ∀ name source_info, (name, source_info) ∈ info →
        sys_name ∉ referenced source_info.

(** Every source entry has a type and [make_source] accepts it. *)
Definition sources_buildable (md : Metadata) (info : odict SourceInfo)
    : Prop :=
  ∀ name source_info, (name, source_info) ∈ info →
    ∃ stype source, si_type source_info = Some stype
      ∧ make_source name stype md = Ok source.

(** What the loop over the sources can raise: the [KeyError] of an entry
    without ['type'], the [AttributeError] of an unset [metadata], an error
    of [make_source], or the error that names a listed systematic without
    an object and the source that lists it. *)
Definition sources_error (self : Calculator) (info : odict SourceInfo)
    (e : exn) : Prop :=
  (e = KeyError "type"
   /\ exists name source_info,
        (name, source_info) ∈ info /\ si_type source_info = None)
  \/ (e = AttributeError "metadata" /\ metadata self = None)
  \/ (exists name source_info stype md,
        (name, source_info) ∈ info
        /\ si_type source_info = Some stype
        /\ metadata self = Some md
        /\ make_source name stype md = Raise e)
  \/ (exists name sys_name,
        unresolved (systematics self) info name sys_name
        /\ e = unresolved_error sys_name name).

(** A source as [setup_sources] leaves it, for its entry: what
    [make_source] built, with the objects the table holds under the
    listed names appended, in the order listed. *)
Definition built_from (self : Calculator) (item : string * SourceInfo)
    (src : Source) : Prop :=
  exists stype md base syss,
    si_type (snd item) = Some stype
    /\ metadata self = Some md
    /\ make_source (fst item) stype md = Ok base
    /\ src_body src = src_body base
    /\ src_systematics src = src_systematics base ++ syss
    /\ Forall2 (fun n sys => odict_get (systematics self) n = Some sys)
         (referenced (snd item)) syss.

End Calculator.

Arguments src_body {Systematic SourceBody} _.
Arguments src_systematics {Systematic SourceBody} _.
Arguments cfg_systematics {Info} _.
Arguments cfg_sources {Info} _.
Arguments metadata {Systematic Metadata SourceBody} _.
Arguments systematics {Systematic Metadata SourceBody} _.
Arguments output_systematics {Systematic Metadata SourceBody} _.
Arguments cosmology_systematics {Systematic Metadata SourceBody} _.
Arguments source_systematics {Systematic Metadata SourceBody} _.
Arguments sources {Systematic Metadata SourceBody} _.
Arguments select {Systematic} isinstance_C d.
Arguments resolve {Systematic} sys_is_None table sys_name.
Arguments attach {Systematic SourceBody} sys_is_None table name sys_names
  source used.
Arguments build_sources {Systematic Metadata SourceBody} sys_is_None
  make_source self info built used.
Arguments setup_systematics {Systematic Info Metadata SourceBody}
  isinstance_OutputSystematic isinstance_CosmologySystematic
  isinstance_SourceSystematic from_info self sys_config.
Arguments setup_sources {Systematic Info Metadata SourceBody} sys_is_None
  make_source self config.
Arguments unresolved {Systematic} sys_is_None table info name sys_name.
Arguments unused {Systematic} bucket info sys_name.
Arguments sources_buildable {Systematic Metadata SourceBody} make_source
  md info.
Arguments sources_error {Systematic Metadata SourceBody} sys_is_None
  make_source self info e.

(** For the examples: a systematic is the name of its class, a source is
    built from its name alone, and the table defines two source
    systematics and one output systematic. *)
Definition example_is (class : string) (sys : string) : bool :=
  String.eqb sys class.

Definition example_is_None : string -> bool := example_is "NoneType".

Definition example_make_source (name : string) (stype : pyval) (md : unit)
    : result (Source string string) :=
  Ok {| src_body := name; src_systematics := [] |}.

Definition example_table : odict string :=
  [("bias", "SourceSystematic"); ("noise", "OutputSystematic");
   ("shear_m", "SourceSystematic")].

Definition example_calculator : Calculator string unit string :=
  {| metadata := Some tt;
     systematics := example_table;
     output_systematics := select (example_is "OutputSystematic") example_table;
     cosmology_systematics :=
       select (example_is "CosmologySystematic") example_table;
     source_systematics := select (example_is "SourceSystematic") example_table;
     sources := [] |}.

Definition example_source (sys_names : list string) : SourceInfo :=
  {| si_type := Some (PStr "LSS"); si_systematics := Some sys_names |}.

(** [lens0] lists [photoz], which the table does not define. *)
Definition config_unresolved : Config string :=
  {| cfg_systematics := None;
     cfg_sources := Some [("lens0", example_source ["bias"; "photoz"]);
                          ("lens1", example_source ["shear_m"])] |}.

(** No source lists [shear_m]. *)
Definition config_unused : Config string :=
  {| cfg_systematics := None;
     cfg_sources := Some [("lens0", example_source ["bias"]);
                          ("lens1", example_source [])] |}.

(** Both at once: [lens0] lists the undefined [photoz], and no source
    lists [shear_m]. *)
Definition sources_both : odict SourceInfo :=
  [("lens0", example_source ["bias"; "photoz"]);
   ("lens1", example_source [])].

Definition config_both : Config string :=
  {| cfg_systematics := None; cfg_sources := Some sources_both |}.

(** [lens0] lists the undefined [photoz] and has no ['type']. *)
Definition sources_untyped : odict SourceInfo :=
  [("lens0", {| si_type := None; si_systematics := Some ["photoz"] |})].

Definition config_untyped : Config string :=
  {| cfg_systematics := None; cfg_sources := Some sources_untyped |}.

Arguments built_from {Systematic Metadata SourceBody} make_source self
  item src.
Arguments build_systematics {Systematic Info} from_info items table.
Arguments init {Systematic Info Metadata SourceBody}
  isinstance_OutputSystematic isinstance_CosmologySystematic
  isinstance_SourceSystematic from_info sys_is_None make_source
  TheoryCalculator_init config md.

(** For the examples: a systematic is configured by the name of its
    class, the base class sets up an empty calculator, with or without
    the metadata, and a configuration in which every source systematic is
    listed. *)
Definition example_from_info (info : string) : result string := Ok info.

Definition example_base_init (with_metadata : bool) (config : Config string)
    (md : unit) : result (Calculator string unit string) :=
  Ok {| metadata := if with_metadata then Some md else None;
        systematics := []; output_systematics := [];
        cosmology_systematics := []; source_systematics := [];
        sources := [] |}.

Definition config_complete : Config string :=
  {| cfg_systematics := Some example_table;
     cfg_sources := Some [("lens0", example_source ["bias"]);
                          ("lens1", example_source ["shear_m"; "bias"])] |}.

Definition example_init (with_metadata : bool) (config : Config string)
    : result (Calculator string unit string) :=
  init (example_is "OutputSystematic") (example_is "CosmologySystematic")
    (example_is "SourceSystematic") example_from_info example_is_None
    example_make_source (example_base_init with_metadata) config tt.

End TwoPoint.

(* ===================================================================== *)
(** * Properties                                                          *)
(* ===================================================================== *)

(** ** The error monad and the operators *)

Lemma bind_Ok {A B} (r : result A) (k : A -> result B) (b : B) :
  bind r k = Ok b -> exists a, r = Ok a /\ k a = Ok b.
Proof. destruct r as [a|e]; simpl; [eauto | discriminate]. Qed.

Lemma getitem_Ok {V} (d : gmap string V) k v :
  getitem d k = Ok v <-> d !! k = Some v.
Proof. unfold getitem. destruct (d !! k); split; congruence. Qed.

(** Negation of a float is an involution: it only flips the sign. *)
Lemma float_opp_involutive (x : float) : (- - x)%float = x.
Proof.
  rewrite <- (SF2Prim_Prim2SF (- - x)), !opp_spec.
  rewrite <- (SF2Prim_Prim2SF x) at 2. f_equal.
  destruct (Prim2SF x) as [ [] | [] | | [] ? ?]; reflexivity.
Qed.

Lemma py_add_floats (x y : float) :
  py_add (PFloat x) (PFloat y) = Ok (PFloat (x + y)).
Proof. reflexivity. Qed.

Lemma py_mul_floats (x y : float) :
  py_mul (PFloat x) (PFloat y) = Ok (PFloat (x * y)).
Proof. reflexivity. Qed.

Lemma py_neg_float (x : float) : py_neg (PFloat x) = Ok (PFloat (- x)).
Proof. reflexivity. Qed.

Lemma py_neg_float_inv (v w : pyval) :
  py_neg v = Ok w -> type_of w = TFloat ->
  exists x, v = PFloat x /\ w = PFloat (- x).
Proof.
  destruct v; simpl; intros [= <-]; try discriminate. eauto.
Qed.

(** ** The parameter record *)

Import Mapping.

Lemma require_float_Ok v w :
  require_float v = Ok w -> w = v /\ type_of v = TFloat.
Proof.
  unfold require_float, require_type.
  destruct v; simpl; intros [= <-]; auto.
Qed.

Lemma require_float_Raise v e :
  require_float v = Raise e -> e = float_required /\ type_of v <> TFloat.
Proof.
  unfold require_float, require_type.
  destruct v; simpl; intros [= <-]; auto.
Qed.

Lemma require_string_Ok v w :
  require_string v = Ok w -> w = v /\ type_of v = TStr.
Proof.
  unfold require_string, require_type.
  destruct v; simpl; intros [= <-]; auto.
Qed.

Lemma init_amplitude_Ok a s p :
  init_amplitude a s = Ok p ->
  (a = PNone /\ p = (PNone, s) /\ type_of s = TFloat)
  \/ (s = PNone /\ p = (a, PNone) /\ type_of a = TFloat).
Proof.
  unfold init_amplitude.
  destruct a, s; simpl; intros [= <-]; auto.
Qed.

(** What a successful construction says about its arguments. *)
Lemma init_Ok a r :
  init a = Ok r ->
  r = {| Omega_c := arg_Omega_c a; Omega_b := arg_Omega_b a; h := arg_h a;
         A_s := arg_A_s a; sigma8 := arg_sigma8 a;
         n_s := arg_n_s a; Omega_k := arg_Omega_k a; Omega_g := PNone;
         Neff := arg_Neff a; m_nu := arg_m_nu a;
         m_nu_type := arg_m_nu_type a;
         w0 := arg_w0 a; wa := arg_wa a; T_CMB := arg_T_CMB a |}
  /\ type_of (arg_Omega_c a) = TFloat /\ type_of (arg_Omega_b a) = TFloat
  /\ type_of (arg_h a) = TFloat
  /\ type_of (arg_n_s a) = TFloat /\ type_of (arg_Omega_k a) = TFloat
  /\ type_of (arg_Neff a) = TFloat /\ type_of (arg_m_nu a) = TFloat
  /\ type_of (arg_m_nu_type a) = TStr
  /\ type_of (arg_w0 a) = TFloat /\ type_of (arg_wa a) = TFloat
  /\ type_of (arg_T_CMB a) = TFloat
  /\ ((arg_A_s a = PNone /\ type_of (arg_sigma8 a) = TFloat)
      \/ (arg_sigma8 a = PNone /\ type_of (arg_A_s a) = TFloat)).
Proof.
  unfold init. intros H.
  repeat match type of H with
  | bind _ _ = Ok _ =>
      apply bind_Ok in H; destruct H as (? & ? & H)
  end.
  injection H as <-.
  repeat match goal with
  | E : require_float _ = Ok _ |- _ =>
      apply require_float_Ok in E; destruct E as [-> ?]
  | E : require_string _ = Ok _ |- _ =>
      apply require_string_Ok in E; destruct E as [-> ?]
  end.
  match goal with
  | E : init_amplitude _ _ = Ok _ |- _ =>
      apply init_amplitude_Ok in E;
      destruct E as [(Ea & -> & ?) | (Es & -> & ?)]
  end; simpl; rewrite ?Ea, ?Es; repeat split; auto.
Qed.

(** What a successful mapping says about the block it read. *)
Lemma from_cosmosis_camb_Ok m r :
  from_cosmosis_camb m = Ok r ->
  exists (oc ob hh s8 ns ok w x neff mnu : float) (on : pyval),
    m !! "omega_c" = Some (PFloat oc) /\ m !! "omega_b" = Some (PFloat ob)
    /\ m !! "h0" = Some (PFloat hh) /\ m !! "sigma_8" = Some (PFloat s8)
    /\ m !! "n_s" = Some (PFloat ns) /\ m !! "omega_k" = Some (PFloat ok)
    /\ m !! "omega_nu" = Some on
    /\ m !! "w" = Some (PFloat w) /\ m !! "wa" = Some (PFloat x)
    /\ py_add (dict_get m "delta_neff" (PFloat 0)) (PFloat 3.046)
        = Ok (PFloat neff)
    /\ (do t1 <- py_mul on (PFloat hh);
        do t2 <- py_mul t1 (PFloat hh);
        py_mul t2 (PFloat 93.14)) = Ok (PFloat mnu)
    /\ r = {| Omega_c := PFloat oc; Omega_b := PFloat ob; h := PFloat hh;
              A_s := PNone; sigma8 := PFloat s8;
              n_s := PFloat ns; Omega_k := PFloat ok; Omega_g := PNone;
              Neff := PFloat neff; m_nu := PFloat mnu;
              m_nu_type := PStr "normal";
              w0 := PFloat w; wa := PFloat (- x);
              T_CMB := PFloat 2.7255 |}.
Proof.
  unfold from_cosmosis_camb. intros H.
  repeat match type of H with
  | bind _ _ = Ok _ =>
      apply bind_Ok in H; destruct H as (? & ? & H)
  end.
  repeat match goal with
  | E : getitem _ _ = Ok _ |- _ => apply getitem_Ok in E
  end.
  apply init_Ok in H. simpl in H.
  destruct H as (-> & T1 & T2 & T3 & T4 & T5 & T6 & T7 & _ & T9 & T10 & _
                 & [[_ T8] | [_ T8]]); [| discriminate T8].
  match goal with
  | E : py_neg _ = Ok _ |- _ =>
      destruct (py_neg_float_inv _ _ E T10) as (xw & -> & ->); clear E T10
  end.
  repeat match goal with
  | T : type_of ?v = TFloat |- _ =>
      is_var v; destruct v; try discriminate T; clear T
  end.
  match goal with
  | E1 : py_mul _ _ = Ok ?a, E2 : py_mul ?a _ = Ok _ |- _ =>
      do 11 eexists; repeat split; try eassumption;
      rewrite E1; simpl; rewrite E2; simpl; eassumption
  end.
Qed.

(** C1 (as the code has it).  Construction fails whenever both or neither
    of [A_s] and [sigma8] are supplied: with both, the error is the
    [ValueError] "Exactly one of A_s and sigma8 must be supplied" as soon
    as [Omega_c], [Omega_b] and [h] are floats (their checks run first and
    raise the float [TypeError] otherwise); with neither, it is the
    [TypeError] "float value is required".  Every record that is
    constructed has exactly one of [A_s] and [sigma8] non-null, and that
    one is a float. *)
Theorem init_amplitude_exclusive (a : init_args) :
  (is_None (arg_A_s a) = false -> is_None (arg_sigma8 a) = false ->
     (init a = Raise amplitude_error \/ init a = Raise float_required)
     /\ (type_of (arg_Omega_c a) = TFloat ->
         type_of (arg_Omega_b a) = TFloat ->
         type_of (arg_h a) = TFloat ->
         init a = Raise amplitude_error))
  /\ (is_None (arg_A_s a) = true -> is_None (arg_sigma8 a) = true ->
      init a = Raise float_required)
  /\ (forall r, init a = Ok r ->
        is_None (A_s r) = negb (is_None (sigma8 r))
        /\ (type_of (A_s r) = TFloat \/ type_of (sigma8 r) = TFloat)).
Proof.
  split; [| split].
  - intros HA HS. unfold init.
    destruct (require_float (arg_Omega_c a)) as [v1|e1] eqn:E1; simpl.
    2:{ apply require_float_Raise in E1 as [-> N1]. split; [auto |].
        intros T; contradiction. }
    destruct (require_float (arg_Omega_b a)) as [v2|e2] eqn:E2; simpl.
    2:{ apply require_float_Raise in E2 as [-> N2]. split; [auto |].
        intros _ T; contradiction. }
    destruct (require_float (arg_h a)) as [v3|e3] eqn:E3; simpl.
    2:{ apply require_float_Raise in E3 as [-> N3]. split; [auto |].
        intros _ _ T; contradiction. }
    unfold init_amplitude. rewrite HA, HS. simpl. auto.
  - intros HA HS. unfold init.
    destruct (arg_A_s a); try discriminate HA.
    destruct (arg_sigma8 a); try discriminate HS.
    destruct (require_float (arg_Omega_c a)) as [v1|e1] eqn:E1; simpl.
    2:{ apply require_float_Raise in E1 as [-> _]. reflexivity. }
    destruct (require_float (arg_Omega_b a)) as [v2|e2] eqn:E2; simpl.
    2:{ apply require_float_Raise in E2 as [-> _]. reflexivity. }
    destruct (require_float (arg_h a)) as [v3|e3] eqn:E3; simpl.
    2:{ apply require_float_Raise in E3 as [-> _]. reflexivity. }
    reflexivity.
  - intros r Hr. apply init_Ok in Hr.
    destruct Hr as (-> & _ & _ & _ & _ & _ & _ & _ & _ & _ & _ & _ & Hamp).
    simpl. destruct Hamp as [[-> T] | [-> T]].
    + destruct (arg_sigma8 a); try discriminate T. auto.
    + destruct (arg_A_s a); try discriminate T. auto.
Qed.

Lemma init_amplitude_exclusive_witness :
  init (args_with (PFloat 2.1e-9) (PFloat 0.8)) = Raise amplitude_error
  /\ init (args_with PNone PNone) = Raise float_required
  /\ exists r, init (args_with PNone (PFloat 0.8)) = Ok r
       /\ is_None (A_s r) = negb (is_None (sigma8 r)).
Proof.
  split; [| split].
  - apply (init_amplitude_exclusive (args_with (PFloat 2.1e-9) (PFloat 0.8)));
      reflexivity.
  - apply (init_amplitude_exclusive (args_with PNone PNone)); reflexivity.
  - eexists. split; [reflexivity |].
    apply (init_amplitude_exclusive (args_with PNone (PFloat 0.8))).
    reflexivity.
Defined.

(** With neither amplitude supplied the constructor does not raise the
    amplitude error: the float check on [A_s] raises a [TypeError]. *)
Lemma init_neither_not_amplitude_error :
  exists e, init (args_with PNone PNone) = Raise e
    /\ e = TypeError "float value is required"
    /\ is_ValueError e = false
    /\ e <> amplitude_error.
Proof.
  eexists. split; [reflexivity |]. repeat split. discriminate.
Qed.

(** C2.  On the end-to-end scenario's block the mapper returns a record
    with [Neff = 3.046], [m_nu = 0.0], [T_CMB = 2.7255], and a [wa] that
    compares equal to [0.0] (it is the float [-0.0]). *)
Theorem scenario_record :
  exists r w,
    from_cosmosis_camb scenario_params = Ok r
    /\ Neff r = PFloat 3.046
    /\ m_nu r = PFloat 0
    /\ wa r = PFloat w /\ (w =? 0)%float = true
    /\ T_CMB r = PFloat 2.7255.
Proof.
  eexists. exists (- 0)%float. vm_compute. repeat split.
Qed.

(** C4.  On every block the mapper accepts, the record's [Neff] is the
    block's [delta_neff] value plus [3.046]: in Python's [+] for any
    value, in double arithmetic for a float, and [3.046] itself for
    [delta_neff = 0.0]. *)
Theorem neff_baseline (m : gmap string pyval) (r : PyCCLCosmologyConstants) :
  from_cosmosis_camb m = Ok r ->
  (forall v, m !! "delta_neff" = Some v ->
     py_add v (PFloat 3.046) = Ok (Neff r))
  /\ (forall d, m !! "delta_neff" = Some (PFloat d) ->
       Neff r = PFloat (d + 3.046))
  /\ (m !! "delta_neff" = Some (PFloat 0) -> Neff r = PFloat 3.046).
Proof.
  intros H. apply from_cosmosis_camb_Ok in H.
  destruct H as (oc & ob & hh & s8 & ns & ok & w & x & neff & mnu & on
                 & _ & _ & _ & _ & _ & _ & _ & _ & _ & HN & _ & ->).
  simpl. unfold dict_get in HN.
  assert (G : forall v, m !! "delta_neff" = Some v ->
                py_add v (PFloat 3.046) = Ok (PFloat neff)).
  { intros v Hv. rewrite Hv in HN. exact HN. }
  split; [exact G | split].
  - intros d Hd. apply G in Hd. rewrite py_add_floats in Hd. congruence.
  - intros H0. apply G in H0. rewrite py_add_floats in H0.
    injection H0 as <-. reflexivity.
Qed.

Lemma neff_baseline_witness :
  exists r,
    from_cosmosis_camb (<["delta_neff" := PFloat 0]> scenario_params) = Ok r
    /\ Neff r = PFloat 3.046.
Proof.
  destruct (from_cosmosis_camb (<["delta_neff" := PFloat 0]> scenario_params))
    as [r|e] eqn:E.
  - exists r. split; [reflexivity |].
    destruct (neff_baseline _ r E) as (_ & _ & H).
    apply H. vm_compute. reflexivity.
  - vm_compute in E. discriminate E.
Defined.

(** C5.  On every block the mapper accepts, the raw [wa] is a float and
    the record holds its negation, so the CosmoSIS value [-0.1] becomes
    [0.1]; flipping the sign again, as the mapper back into the CosmoSIS
    convention does, gives the raw value back. *)
Theorem wa_sign_flip (m : gmap string pyval) (r : PyCCLCosmologyConstants) :
  from_cosmosis_camb m = Ok r ->
  exists x,
    m !! "wa" = Some (PFloat x)
    /\ wa r = PFloat (- x)
    /\ (x = (-0.1)%float -> wa r = PFloat 0.1)
    /\ to_cosmosis_wa (wa r) = Ok (PFloat x).
Proof.
  intros H. apply from_cosmosis_camb_Ok in H.
  destruct H as (oc & ob & hh & s8 & ns & ok & w & x & neff & mnu & on
                 & _ & _ & _ & _ & _ & _ & _ & _ & Hwa & _ & _ & ->).
  exists x. simpl. repeat split; [exact Hwa | |].
  - intros ->. reflexivity.
  - unfold to_cosmosis_wa. rewrite py_neg_float, float_opp_involutive.
    reflexivity.
Qed.

Lemma wa_sign_flip_witness :
  exists r,
    from_cosmosis_camb flipped_params = Ok r
    /\ wa r = PFloat 0.1
    /\ to_cosmosis_wa (wa r) = Ok (PFloat (-0.1)).
Proof.
  destruct (from_cosmosis_camb flipped_params) as [r|e] eqn:E.
  - exists r. split; [reflexivity |].
    destruct (wa_sign_flip _ r E) as (x & Hx & _ & H1 & H2).
    assert (Ex : x = (-0.1)%float).
    { vm_compute in Hx. injection Hx as <-. reflexivity. }
    split; [exact (H1 Ex) | rewrite <- Ex; exact H2].
  - vm_compute in E. discriminate E.
Defined.

(** A block the mapper accepts has every subscripted key. *)
Lemma from_cosmosis_camb_Ok_keys m r k :
  from_cosmosis_camb m = Ok r -> k ∈ required_keys -> is_Some (m !! k).
Proof.
  intros H Hk. apply from_cosmosis_camb_Ok in H.
  destruct H as (oc & ob & hh & s8 & ns & ok & w & x & neff & mnu & on
                 & ? & ? & ? & ? & ? & ? & ? & ? & ? & _).
  unfold required_keys in Hk.
  repeat (apply elem_of_cons in Hk as [-> | Hk]; [eauto |]).
  apply elem_of_nil in Hk. contradiction.
Qed.

Lemma float_or_missing (m : gmap string pyval) (k : string) :
  (forall k v, m !! k = Some v -> type_of v = TFloat) ->
  m !! k = None \/ exists f, m !! k = Some (PFloat f).
Proof.
  intros Hf. destruct (m !! k) as [v|] eqn:E; [right | left; reflexivity].
  apply Hf in E. destruct v; try discriminate E. eauto.
Qed.

(** A case split on a fact [A \/ exists x, B]: the left case settles the
    goal with the fact itself, the right case goes on with it rewritten. *)
Tactic Notation "next_key" constr(H) :=
  let E := fresh "E" in
  destruct H as [E | [? E]];
  [ rewrite !E; cbn beta iota delta [List.find negb bind];
    split; [exact E | reflexivity]
  | rewrite !E; cbn beta iota delta [List.find negb bind] ].

(** On a block of floats the mapper's arithmetic cannot fail, so the first
    failure is the first missing key. *)
Lemma from_cosmosis_camb_first_missing m :
  (forall k v, m !! k = Some v -> type_of v = TFloat) ->
  match first_missing m with
  | Some k => m !! k = None /\ from_cosmosis_camb m = Raise (KeyError k)
  | None => exists r, from_cosmosis_camb m = Ok r
  end.
Proof.
  intros Hf.
  assert (D : exists d, dict_get m "delta_neff" (PFloat 0) = PFloat d).
  { unfold dict_get.
    destruct (float_or_missing m "delta_neff" Hf) as [-> | [f ->]]; eauto. }
  destruct D as [d D].
  unfold first_missing, required_keys, from_cosmosis_camb, getitem,
    contains_key.
  rewrite D. clear D. cbn beta iota delta [List.find].
  next_key (float_or_missing m "omega_c" Hf).
  next_key (float_or_missing m "omega_b" Hf).
  next_key (float_or_missing m "h0" Hf).
  next_key (float_or_missing m "sigma_8" Hf).
  next_key (float_or_missing m "n_s" Hf).
  next_key (float_or_missing m "omega_k" Hf).
  rewrite py_add_floats. cbn beta iota delta [bind].
  next_key (float_or_missing m "omega_nu" Hf).
  rewrite !py_mul_floats. cbn beta iota delta [bind].
  rewrite !py_mul_floats. cbn beta iota delta [bind].
  rewrite !py_mul_floats. cbn beta iota delta [bind].
  next_key (float_or_missing m "w" Hf).
  next_key (float_or_missing m "wa" Hf).
  rewrite py_neg_float. cbn beta iota delta [bind].
  eexists. reflexivity.
Qed.

(** A key that is not in a list of keys written out. *)
Ltac not_listed :=
  let H := fresh in
  intros H; exfalso; apply (bool_decide_pack _) in H; vm_compute in H;
  exact H.

(** The case of [missing_key_fails] in which the key under [E] is the
    first one missing. *)
Ltac first_missing_here Hk E :=
  injection Hk as <-;
  split; [exact E |];
  split; [intros _; unfold from_cosmosis_camb, getitem;
          repeat match goal with
                 | H : ?m !! ?k = _ |- context [?m !! ?k] => rewrite H
                 end;
          reflexivity |];
  split; [discriminate |];
  intros [HH | HH]; discriminate HH.




(** ** The parameter block *)

Import Parser.

Lemma reduce_value_fiducial val :
  reduce_value val = match fiducial val with
                     | Some v => Ok v
                     | None => Raise index_error
                     end.
Proof.
  destruct val; try reflexivity.
Qed.

Lemma reduce_items_cons k val rest params0 :
  reduce_items ((k, val) :: rest) params0 =
  match fiducial val with
  | Some v => reduce_items rest (<[k := v]> params0)
  | None => Raise index_error
  end.
Proof.
  cbn [reduce_items]. rewrite reduce_value_fiducial.
  destruct (fiducial val); reflexivity.
Qed.

Lemma reduce_items_Ok items :
  NoDup items.*1 ->
  forall params0 params,
    reduce_items items params0 = Ok params ->
    forall p, params !! p =
      match (list_to_map items : gmap string pyval) !! p with
      | Some val => fiducial val
      | None => params0 !! p
      end.
Proof.
  induction items as [| [k val] rest IH]; intros ND params0 params H p.
  - cbn [reduce_items] in H. injection H as <-.
    rewrite list_to_map_nil, lookup_empty. reflexivity.
  - rewrite reduce_items_cons in H.
    destruct (fiducial val) as [v|] eqn:Ev; [| discriminate].
    rewrite fmap_cons in ND. apply NoDup_cons in ND as [Hk ND].
    cbn [fst] in Hk.
    rewrite (IH ND _ _ H p), list_to_map_cons.
    destruct (decide (k = p)) as [<- | Hne].
    + rewrite lookup_insert_eq.
      rewrite (not_elem_of_list_to_map_1 _ _ Hk).
      rewrite lookup_insert_eq. symmetry. exact Ev.
    + rewrite !lookup_insert_ne by exact Hne. reflexivity.
Qed.

Lemma reduce_items_Ok_all items params0 params :
  reduce_items items params0 = Ok params ->
  forall p val, (p, val) ∈ items -> is_Some (fiducial val).
Proof.
  revert params0.
  induction items as [| [k val] rest IH]; intros params0 H p val' Hin.
  - apply elem_of_nil in Hin. contradiction.
  - rewrite reduce_items_cons in H.
    destruct (fiducial val) as [v|] eqn:Ev; [| discriminate].
    apply elem_of_cons in Hin as [[= -> ->] | Hin].
    + rewrite Ev. eauto.
    + exact (IH _ H _ _ Hin).
Qed.

Lemma reduce_items_total items params0 :
  (forall p val, (p, val) ∈ items -> is_Some (fiducial val)) ->
  exists params, reduce_items items params0 = Ok params.
Proof.
  revert params0.
  induction items as [| [k val] rest IH]; intros params0 Hall.
  - eexists. reflexivity.
  - rewrite reduce_items_cons.
    destruct (Hall k val) as [v ->]; [left |].
    apply IH. intros p val' Hin. apply (Hall p). right. exact Hin.
Qed.

Lemma reduce_items_Raise items params0 e :
  reduce_items items params0 = Raise e ->
  e = index_error
  /\ exists p val, (p, val) ∈ items /\ fiducial val = None.
Proof.
  revert params0.
  induction items as [| [k val] rest IH]; intros params0 H.
  - discriminate.
  - rewrite reduce_items_cons in H.
    destruct (fiducial val) as [v|] eqn:Ev.
    + destruct (IH _ H) as (-> & p & val' & Hin & Hf).
      split; [reflexivity |]. exists p, val'. split; [right |]; assumption.
    + injection H as <-. split; [reflexivity |].
      exists k, val. split; [left | assumption].
Qed.

Lemma fiducial_None val :
  fiducial val = None <-> exists l, val = PList l /\ length l < 2.
Proof.
  destruct val; cbn [fiducial]; split; try discriminate;
    try (intros (l' & [=] & _); fail).
  - intros H. exists l. split; [reflexivity |].
    apply lookup_ge_None in H. lia.
  - intros (l' & [= <-] & H). apply lookup_ge_None. lia.
Qed.

(** C9.  The loop over the parameter block stores, for every key, the
    element at index 1 of a list value (the fiducial value of a
    [[low, fiducial, high]] triple) and every other value unchanged, and
    it stores nothing under any other key.  It returns whenever every list
    in the block has at least two elements; a shorter list is the only way
    it fails, with an [IndexError]. *)
Theorem parse_parameters_fiducial (parameters : gmap string pyval) :
  (forall params, parse_parameters parameters = Ok params ->
     forall p,
       match parameters !! p with
       | Some (PList l) => params !! p = l !! 1 /\ is_Some (l !! 1)
       | Some val => params !! p = Some val
       | None => params !! p = None
       end)
  /\ ((forall p l, parameters !! p = Some (PList l) -> 2 <= length l) ->
      exists params, parse_parameters parameters = Ok params)
  /\ (forall e, parse_parameters parameters = Raise e ->
        e = index_error
        /\ exists p l, parameters !! p = Some (PList l) /\ length l < 2).
Proof.
  unfold parse_parameters. split; [| split].
  - intros params H p.
    pose proof (reduce_items_Ok _ (NoDup_fst_map_to_list parameters)
                  _ _ H p) as E.
    rewrite list_to_map_to_list, lookup_empty in E.
    destruct (parameters !! p) as [val|] eqn:Ep; [| exact E].
    destruct val; try exact E.
    cbn [fiducial] in E. split; [exact E |].
    apply elem_of_map_to_list in Ep.
    exact (reduce_items_Ok_all _ _ _ H _ _ Ep).
  - intros Hlen. apply reduce_items_total.
    intros p val Hin. apply elem_of_map_to_list in Hin.
    destruct (fiducial val) as [v|] eqn:Ev; [eauto |].
    apply fiducial_None in Ev as (l & -> & Hl).
    apply Hlen in Hin. lia.
  - intros e H. apply reduce_items_Raise in H as (-> & p & val & Hin & Hf).
    split; [reflexivity |].
    apply fiducial_None in Hf as (l & -> & Hl).
    apply elem_of_map_to_list in Hin. eauto.
Qed.

Lemma lists_long_enough (m : gmap string pyval) :
  map_Forall (fun _ v => Is_true match v with
                                 | PList l => 2 <=? length l
                                 | _ => true
                                 end) m ->
  forall p l, m !! p = Some (PList l) -> 2 <= length l.
Proof.
  intros H p l Hp. specialize (H p _ Hp). simpl in H.
  apply Is_true_true in H. apply Nat.leb_le. exact H.
Qed.

Lemma parse_parameters_fiducial_witness :
  exists params,
    parse_parameters example_block = Ok params
    /\ params !! "omega_c" = Some (PFloat 0.25)
    /\ params !! "h0" = Some (PFloat 0.7).
Proof.
  destruct (parse_parameters_fiducial example_block) as (H1 & H2 & _).
  destruct H2 as [params Hp].
  - apply lists_long_enough.
    apply (bool_decide_unpack _). vm_compute. reflexivity.
  - exists params. split; [exact Hp |].
    pose proof (H1 params Hp "omega_c") as Hc.
    pose proof (H1 params Hp "h0") as Hh.
    assert (Ec : example_block !! "omega_c"
                 = Some (PList [PFloat 0.2; PFloat 0.25; PFloat 0.3]))
      by (vm_compute; reflexivity).
    assert (Eh : example_block !! "h0" = Some (PFloat 0.7))
      by (vm_compute; reflexivity).
    rewrite Ec in Hc. rewrite Eh in Hh.
    destruct Hc as [Hc _]. split; [exact Hc | exact Hh].
Defined.

(** ** The Student-t likelihood *)

Lemma py_float_cases v f :
  py_float v = Ok f ->
  (v = PFloat f)
  \/ (exists n, v = PInt n /\ float_of_int n = Ok f)
  \/ (exists b, v = PBool b /\ float_of_int (Z.b2z b) = Ok f).
Proof.
  unfold py_float.
  destruct v; cbn [as_num num_float]; try discriminate; eauto.
  intros [= ->]. auto.
Qed.

Lemma py_mul_float_l (a : float) v f :
  py_float v = Ok f -> py_mul (PFloat a) v = Ok (PFloat (a * f)).
Proof.
  intros H. apply py_float_cases in H as [-> | [(n & -> & E) | (b & -> & E)]];
    unfold py_mul; cbn [as_num num_binop num_float bind];
    rewrite ?E; reflexivity.
Qed.

Lemma py_sub_float_r v f (b : float) :
  py_float v = Ok f -> py_sub v (PFloat b) = Ok (PFloat (f - b)).
Proof.
  intros H. apply py_float_cases in H as [-> | [(n & -> & E) | (c & -> & E)]];
    unfold py_sub; cbn [as_num num_binop num_float bind];
    rewrite ?E; reflexivity.
Qed.

Lemma py_truediv_float_r v f (d : float) :
  py_float v = Ok f ->
  py_truediv v (PFloat d) =
  if (d =? 0)%float then Raise (ZeroDivisionError "float division by zero")
  else Ok (PFloat (f / d)).
Proof.
  intros H. apply py_float_cases in H as [-> | [(n & -> & E) | (c & -> & E)]];
    unfold py_truediv; cbn [as_num num_float bind];
    rewrite ?E; reflexivity.
Qed.

Section StudentT_properties.
Import StudentT.
Context {Statistic GaussFamily Cosmology : Type}.
Variable np_log : float -> float.
Variable compute_chisq :
  StudentT GaussFamily -> Cosmology -> gmap string pyval -> result pyval.

(** C7.  For an object whose shape parameter [nu] is the number [v], and a
    chi-square [chi2] returned by [compute_chisq] for the same cosmology
    and parameters, [compute_loglike] returns
    [-0.5 * nu * log(1 + chi2 / (nu - 1))] in double arithmetic, where
    [nu] and [chi2] are taken as doubles and [nu - 1.0] is not zero. *)
Theorem compute_loglike_formula (self : StudentT GaussFamily) cosmo params
    chi2 v c :
  compute_chisq self cosmo params = Ok chi2 ->
  py_float (nu self) = Ok v ->
  py_float chi2 = Ok c ->
  (v - 1 =? 0)%float = false ->
  compute_loglike np_log compute_chisq self cosmo params
  = Ok (PFloat (-0.5 * v * np_log (1 + c / (v - 1)))).
Proof.
  intros Hchi Hv Hc Hd.
  unfold compute_loglike. rewrite Hchi. cbn [bind].
  rewrite (py_mul_float_l _ _ _ Hv). cbn [bind].
  rewrite (py_sub_float_r _ _ _ Hv). cbn [bind].
  rewrite (py_truediv_float_r _ _ _ Hc), Hd. cbn [bind].
  rewrite py_add_floats. cbn [bind].
  unfold np_log_val. cbn [as_num num_float bind].
  rewrite py_mul_floats. reflexivity.
Qed.


End StudentT_properties.

Lemma compute_loglike_formula_witness :
  StudentT.compute_loglike StudentT.example_log StudentT.example_chisq
    {| StudentT.base := [tt]; StudentT.nu := PInt 10 |} tt ∅
  = Ok (PFloat (StudentT.loglike StudentT.example_log 10 2)).
Proof.
  apply (compute_loglike_formula StudentT.example_log StudentT.example_chisq
           _ tt ∅ (PFloat 2) 10 2);
    vm_compute; reflexivity.
Defined.

(** ** Amplitude by truth value in [convert_cosmobase_to_ccl] *)

Import TwoPoint.

Lemma getattr_delete_ne cb k k' :
  k <> k' -> getattr (delete k cb) k' = getattr cb k'.
Proof.
  intros H. unfold getattr. rewrite lookup_delete_ne by exact H. reflexivity.
Qed.

Lemma contains_delete_ne cb k k' :
  k <> k' -> contains (delete k cb) k' = contains cb k'.
Proof.
  intros H. unfold contains, contains_key.
  rewrite lookup_delete_ne by exact H. reflexivity.
Qed.

Lemma contains_delete_eq cb k : contains (delete k cb) k = false.
Proof.
  unfold contains, contains_key. rewrite lookup_delete_eq. reflexivity.
Qed.

Lemma truthy_zero : truthy (PFloat 0) = false.
Proof. reflexivity. Qed.

Lemma amplitude_branch_falsy_sigma8 oc ob ok w wa h0 ns v A_s :
  truthy v = false ->
  amplitude_branch oc ob ok w wa h0 ns v A_s
  = amplitude_branch oc ob ok w wa h0 ns (PFloat 0) A_s.
Proof.
  intros H. unfold amplitude_branch. rewrite H, truthy_zero. reflexivity.
Qed.

Lemma amplitude_branch_falsy_A_s oc ob ok w wa h0 ns sigma8 v :
  truthy v = false ->
  amplitude_branch oc ob ok w wa h0 ns sigma8 v
  = amplitude_branch oc ob ok w wa h0 ns sigma8 (PFloat 0).
Proof.
  intros H. unfold amplitude_branch. rewrite H, truthy_zero. reflexivity.
Qed.

Lemma getattr_Some cb k v : cb !! k = Some v -> getattr cb k = Ok v.
Proof. unfold getattr. intros ->. reflexivity. Qed.

Lemma contains_Some cb k v : cb !! k = Some v -> contains cb k = true.
Proof. unfold contains, contains_key. intros ->. reflexivity. Qed.

Lemma contains_None cb k : cb !! k = None -> contains cb k = false.
Proof. unfold contains, contains_key. intros ->. reflexivity. Qed.

(** Removing a key whose value is falsy does not change the conversion,
    for either amplitude key. *)
Lemma convert_delete_falsy_sigma8 cb v :
  cb !! "sigma_8" = Some v -> truthy v = false ->
  convert_cosmobase_to_ccl cb
  = convert_cosmobase_to_ccl (delete "sigma_8" cb).
Proof.
  intros Hs Hv. unfold convert_cosmobase_to_ccl.
  rewrite contains_delete_eq.
  rewrite !getattr_delete_ne, !contains_delete_ne by discriminate.
  rewrite (contains_Some _ _ _ Hs), (getattr_Some _ _ _ Hs).
  repeat match goal with
  | |- bind ?r _ = bind ?r _ => destruct r; cbn [bind]; [| reflexivity]
  | |- (if ?b then _ else _) = (if ?b then _ else _) =>
      destruct b; [reflexivity |]
  end.
  apply amplitude_branch_falsy_sigma8. exact Hv.
Qed.

Lemma convert_delete_falsy_a_s cb v :
  cb !! "a_s" = Some v -> truthy v = false ->
  convert_cosmobase_to_ccl cb
  = convert_cosmobase_to_ccl (delete "a_s" cb).
Proof.
  intros Hs Hv. unfold convert_cosmobase_to_ccl.
  rewrite contains_delete_eq.
  rewrite !getattr_delete_ne, !contains_delete_ne by discriminate.
  rewrite (contains_Some _ _ _ Hs), (getattr_Some _ _ _ Hs).
  repeat match goal with
  | |- bind ?r _ = bind ?r _ => destruct r; cbn [bind]; [| reflexivity]
  | |- (if ?b then _ else _) = (if ?b then _ else _) =>
      destruct b; [reflexivity |]
  end.
  apply amplitude_branch_falsy_A_s. exact Hv.
Qed.

(** Whatever was read, two falsy amplitudes end in the last branch. *)
Lemma amplitude_branch_both_falsy oc ob ok w wa h0 ns s a :
  truthy s = false -> truthy a = false ->
  amplitude_branch oc ob ok w wa h0 ns s a = Raise no_amplitude_error.
Proof. intros Hs Ha. unfold amplitude_branch. rewrite Hs, Ha. reflexivity. Qed.

(** C10.  The amplitude is taken by truth value, not by key presence: a
    [sigma_8] (or [a_s]) that is present with a falsy value such as [0.0]
    converts exactly as if the key were absent; and a parameter set with
    [sigma_8 = 0.0] and no [a_s] is never turned into oracle parameters:
    once the other attributes are read and the neutrino sum is zero, the
    error is "Need either sigma 8 or A_s in pyccl.". *)
Theorem amplitude_by_truthiness (cb : gmap string pyval) :
  (forall v, cb !! "sigma_8" = Some v -> truthy v = false ->
     convert_cosmobase_to_ccl cb
     = convert_cosmobase_to_ccl (delete "sigma_8" cb))
  /\ (forall v, cb !! "a_s" = Some v -> truthy v = false ->
       convert_cosmobase_to_ccl cb
       = convert_cosmobase_to_ccl (delete "a_s" cb))
  /\ (cb !! "sigma_8" = Some (PFloat 0) -> cb !! "a_s" = None ->
       (forall p, convert_cosmobase_to_ccl cb <> Ok p)
       /\ (forall oc ob ok nr nm nsum w wa h0 ns,
             cb !! "omega_c" = Some oc -> cb !! "omega_b" = Some ob ->
             cb !! "omega_k" = Some ok ->
             cb !! "omega_n_rel" = Some nr ->
             cb !! "omega_n_mass" = Some nm ->
             py_add nr nm = Ok nsum -> truthy nsum = false ->
             cb !! "w0" = Some w -> cb !! "wa" = Some wa ->
             cb !! "h" = Some h0 -> cb !! "n_s" = Some ns ->
             convert_cosmobase_to_ccl cb = Raise no_amplitude_error)).
Proof.
  split; [exact (convert_delete_falsy_sigma8 cb) |].
  split; [exact (convert_delete_falsy_a_s cb) |].
  intros Hs Ha. split.
  - intros p. unfold convert_cosmobase_to_ccl.
    rewrite (contains_Some _ _ _ Hs), (getattr_Some _ _ _ Hs),
      (contains_None _ _ Ha).
    repeat match goal with
    | |- bind ?r _ <> _ => destruct r; cbn [bind]; [| discriminate]
    | |- (if ?b then _ else _) <> _ => destruct b; [discriminate |]
    end.
    rewrite amplitude_branch_both_falsy by reflexivity. discriminate.
  - intros oc ob ok nr nm nsum w wa h0 ns
      Hoc Hob Hok Hnr Hnm Hsum Hfalsy Hw Hwa Hh Hns.
    unfold convert_cosmobase_to_ccl.
    rewrite (getattr_Some _ _ _ Hoc), (getattr_Some _ _ _ Hob),
      (getattr_Some _ _ _ Hok), (getattr_Some _ _ _ Hnr),
      (getattr_Some _ _ _ Hnm). cbn [bind].
    rewrite Hsum. cbn [bind]. rewrite Hfalsy.
    rewrite (getattr_Some _ _ _ Hw), (getattr_Some _ _ _ Hwa),
      (getattr_Some _ _ _ Hh), (getattr_Some _ _ _ Hns),
      (contains_Some _ _ _ Hs), (getattr_Some _ _ _ Hs),
      (contains_None _ _ Ha). cbn [bind].
    apply amplitude_branch_both_falsy; reflexivity.
Qed.

Lemma amplitude_by_truthiness_witness :
  convert_cosmobase_to_ccl zero_sigma8_base = Raise no_amplitude_error
  /\ convert_cosmobase_to_ccl zero_sigma8_base
     = convert_cosmobase_to_ccl (delete "sigma_8" zero_sigma8_base).
Proof.
  destruct (amplitude_by_truthiness zero_sigma8_base) as (H1 & _ & H3).
  split.
  - destruct H3 as [_ H3]; [reflexivity | reflexivity |].
    apply (H3 (PFloat 0.25) (PFloat 0.05) (PFloat 0) (PFloat 0) (PFloat 0)
              (PFloat 0) (PFloat (-1)) (PFloat 0) (PFloat 0.7)
              (PFloat 0.96)); reflexivity.
  - apply (H1 (PFloat 0)); reflexivity.
Defined.

(** ** Sources and systematics *)

Lemma check_used_Ok sys_names used :
  check_used sys_names used = Ok tt ->
  forall s, (s ∈ sys_names) -> (s ∈ used).
Proof.
  induction sys_names as [| n rest IH]; intros H s Hs.
  - apply elem_of_nil in Hs. contradiction.
  - cbn [check_used] in H. destruct (decide (n ∈ used)) as [Hn|Hn];
      [| discriminate].
    apply elem_of_cons in Hs as [-> | Hs]; [exact Hn | exact (IH H s Hs)].
Qed.

Lemma check_used_Raise sys_names used e :
  check_used sys_names used = Raise e ->
  exists s, s ∈ sys_names /\ (s ∉ used) /\ e = unused_error s.
Proof.
  induction sys_names as [| n rest IH]; intros H.
  - discriminate.
  - cbn [check_used] in H. destruct (decide (n ∈ used)) as [Hn|Hn].
    + destruct (IH H) as (s & Hs & Hu & ->).
      exists s. split; [right; exact Hs | auto].
    + injection H as <-. exists n. split; [left | auto].
Qed.

Lemma string_length_app (s t : string) :
  String.length (s ++ t) = String.length s + String.length t.
Proof.
  induction s as [| c s IH]; [reflexivity |].
  change (S (String.length (s ++ t)) = S (String.length s + String.length t)).
  rewrite IH. reflexivity.
Qed.

(** The last character of [s ++ t] is the last character of [t]. *)
Lemma string_last_app (s t : string) :
  0 < String.length t ->
  String.get (String.length (s ++ t) - 1) (s ++ t)
  = String.get (String.length t - 1) t.
Proof.
  intros Ht. rewrite string_length_app.
  replace (String.length s + String.length t - 1)
    with (String.length t - 1 + String.length s) by lia.
  symmetry. apply String.append_correct2.
Qed.

(** The two messages end differently, so neither error is the other. *)
Lemma unresolved_error_not_unused (sys_name name s : string) :
  unresolved_error sys_name name <> unused_error s.
Proof.
  unfold unresolved_error, unused_error. intros [= H].
  apply (f_equal (fun x => String.get (String.length x - 1) x)) in H.
  cbv beta in H.
  rewrite !string_last_app in H;
    rewrite ?string_length_app; cbn [String.length]; try lia.
  vm_compute in H. discriminate H.
Qed.

Section Calculator_properties.
Context {Systematic Info Metadata SourceBody : Type}.
Variable sys_is_None : Systematic -> bool.
Variable make_source :
  string -> pyval -> Metadata -> result (Source Systematic SourceBody).

Implicit Types (table : odict Systematic) (info : odict SourceInfo).
Implicit Types (self : Calculator Systematic Metadata SourceBody).

Lemma resolve_Some table s sys :
  resolve sys_is_None table s = Some sys ->
  odict_get table s = Some sys /\ sys_is_None sys = false.
Proof.
  unfold resolve. destruct (odict_get table s) as [x|]; [| discriminate].
  destruct (sys_is_None x) eqn:E; [discriminate |].
  intros [= <-]. auto.
Qed.

Lemma attach_Ok table name sys_names :
  forall (source source' : Source Systematic SourceBody) used used',
    attach sys_is_None table name sys_names source used
    = Ok (source', used') ->
    (forall s, s ∈ sys_names -> is_Some (resolve sys_is_None table s))
    /\ used' = list_to_set sys_names ∪ used.
Proof.
  induction sys_names as [| n rest IH]; intros source used source' used' H.
  - cbn [attach] in H. injection H as <- <-. split.
    + intros s Hs. apply elem_of_nil in Hs. contradiction.
    + rewrite list_to_set_nil. set_solver.
  - cbn [attach] in H.
    destruct (resolve sys_is_None table n) as [sys|] eqn:En;
      [| discriminate].
    destruct (IH _ _ _ _ H) as [Hall ->]. split.
    + intros s Hs. apply elem_of_cons in Hs as [-> | Hs];
        [rewrite En; eauto | exact (Hall s Hs)].
    + rewrite list_to_set_cons. set_solver.
Qed.

Lemma attach_Raise table name sys_names :
  forall (source : Source Systematic SourceBody) used e,
    attach sys_is_None table name sys_names source used = Raise e ->
    exists s, s ∈ sys_names /\ resolve sys_is_None table s = None
      /\ e = unresolved_error s name.
Proof.
  induction sys_names as [| n rest IH]; intros source used e H.
  - discriminate.
  - cbn [attach] in H.
    destruct (resolve sys_is_None table n) as [sys|] eqn:En.
    + destruct (IH _ _ _ H) as (s & Hs & Hn & ->).
      exists s. split; [right; exact Hs | auto].
    + injection H as <-. exists n. split; [left | auto].
Qed.

Lemma build_sources_Ok self info :
  forall built used built' used',
    build_sources sys_is_None make_source self info built used
    = Ok (built', used') ->
    (forall name si s, (name, si) ∈ info -> s ∈ referenced si ->
       is_Some (resolve sys_is_None (systematics self) s))
    /\ (forall s, s ∈ used' <->
          s ∈ used \/ exists name si, (name, si) ∈ info /\ s ∈ referenced si).
Proof.
  induction info as [| [n si0] rest IH]; intros built used built' used' H.
  - cbn [build_sources] in H. injection H as <- <-. split.
    + intros name si s Hin. apply elem_of_nil in Hin. contradiction.
    + intros s. split; [auto |].
      intros [Hs | (name & si & Hin & _)]; [exact Hs |].
      apply elem_of_nil in Hin. contradiction.
  - cbn [build_sources] in H.
    destruct (si_type si0) as [stype|]; [| discriminate]. cbn [bind] in H.
    destruct (metadata self) as [md|]; [| discriminate]. cbn [bind] in H.
    destruct (make_source n stype md) as [source|]; [| discriminate].
    cbn [bind] in H.
    destruct (attach sys_is_None (systematics self) n
                (default [] (si_systematics si0)) source used)
      as [[source' used1]|] eqn:Ea; [| discriminate].
    cbn [bind fst snd] in H.
    apply attach_Ok in Ea as [Hres ->].
    destruct (IH _ _ _ _ H) as [Hall Hused]. split.
    + intros name si s Hin Hs.
      apply elem_of_cons in Hin as [[= -> ->] | Hin];
        [exact (Hres s Hs) | exact (Hall name si s Hin Hs)].
    + intros s. rewrite Hused. split.
      * intros [Hs | (name & si & Hin & Hs)].
        -- apply elem_of_union in Hs as [Hs | Hs]; [| auto].
           apply elem_of_list_to_set in Hs.
           right. exists n, si0. split; [left | exact Hs].
        -- right. exists name, si. split; [right; exact Hin | exact Hs].
      * intros [Hs | (name & si & Hin & Hs)].
        -- left. apply elem_of_union. auto.
        -- apply elem_of_cons in Hin as [[= -> ->] | Hin].
           ++ left. apply elem_of_union. left.
              apply elem_of_list_to_set. exact Hs.
           ++ right. eauto.
Qed.

Lemma sources_error_further self info item e :
  sources_error sys_is_None make_source self info e ->
  sources_error sys_is_None make_source self (item :: info) e.
Proof.
  intros [(-> & name & si & Hin & Ht)
         | [H | [(name & si & stype & md & Hin & H)
                | (name & s & (si & Hin & H) & ->)]]].
  - left. split; [reflexivity |]. exists name, si.
    split; [right; exact Hin | exact Ht].
  - right. left. exact H.
  - right. right. left. exists name, si, stype, md.
    split; [right; exact Hin | exact H].
  - right. right. right. exists name, s. split; [| reflexivity].
    exists si. split; [right; exact Hin | exact H].
Qed.

(** Whatever the loop over the sources raises is one of its four
    errors. *)
Lemma build_sources_Raise_kinds self info :
  forall built used e,
    build_sources sys_is_None make_source self info built used = Raise e ->
    sources_error sys_is_None make_source self info e.
Proof.
  induction info as [| [n si0] rest IH]; intros built used e H.
  - discriminate.
  - cbn [build_sources] in H.
    destruct (si_type si0) as [stype|] eqn:Et; cbn [bind] in H.
    2:{ injection H as <-. left. split; [reflexivity |].
        exists n, si0. split; [left | exact Et]. }
    destruct (metadata self) as [md|] eqn:Em; cbn [bind] in H.
    2:{ injection H as <-. right. left. auto. }
    destruct (make_source n stype md) as [source|e0] eqn:Es; cbn [bind] in H.
    2:{ injection H as <-. right. right. left.
        exists n, si0, stype, md. split; [left | auto]. }
    destruct (attach sys_is_None (systematics self) n
                (default [] (si_systematics si0)) source used)
      as [[source' used1]|e1] eqn:Ea; cbn [bind fst snd] in H.
    + apply sources_error_further. exact (IH _ _ _ H).
    + injection H as <-.
      apply attach_Raise in Ea as (s & Hs & Hn & ->).
      right. right. right. exists n, s. split; [| reflexivity].
      exists si0. split; [left | auto].
Qed.

Lemma build_sources_Raise self info md :
  metadata self = Some md ->
  sources_buildable make_source md info ->
  forall built used e,
    build_sources sys_is_None make_source self info built used = Raise e ->
    exists name s,
      unresolved sys_is_None (systematics self) info name s
      /\ e = unresolved_error s name.
Proof.
  intros Hmd Hbuild built used e H.
  destruct (build_sources_Raise_kinds _ _ _ _ _ H)
    as [(_ & name & si & Hin & Ht)
       | [[_ Hn] | [(name & si & stype & md' & Hin & Ht & Hm & Hs) | Hu]]].
  - destruct (Hbuild name si Hin) as (stype & source & Ht' & _). congruence.
  - congruence.
  - destruct (Hbuild name si Hin) as (stype' & source & Ht' & Hs').
    congruence.
  - exact Hu.
Qed.

(** C3 (as the code has it).  [setup_sources] does not return on a
    configuration that breaks either rule: a source listing a systematic
    for which the table has no object, or a systematic of the source
    bucket that no source lists.  What it raises is decided in order: the
    loop over the sources comes first and raises the [KeyError] of an
    entry without a type, the [AttributeError] of unset metadata, an error
    of [make_source], or the [ValueError] naming a listed systematic
    without an object and its source; the [ValueError] naming an unlisted
    systematic of the bucket is raised only once that loop has finished,
    so only when no listed name is without an object.  When the sources
    themselves can be built, a configuration breaking the first rule gets
    the first [ValueError], and one breaking only the second rule gets the
    second. *)
Theorem setup_sources_completeness self (config : Config Info) info :
  cfg_sources config = Some info ->
  ((exists name s, unresolved sys_is_None (systematics self) info name s)
   \/ (exists s, unused (source_systematics self) info s) ->
   exists e, setup_sources sys_is_None make_source self config = Raise e)
  /\ (forall e,
        setup_sources sys_is_None make_source self config = Raise e ->
        sources_error sys_is_None make_source self info e
        \/ (exists s, unused (source_systematics self) info s
              /\ e = unused_error s
              /\ forall name s',
                   ~ unresolved sys_is_None (systematics self) info name s'))
  /\ (forall md,
       metadata self = Some md ->
       sources_buildable make_source md info ->
       ((exists name s,
           unresolved sys_is_None (systematics self) info name s) ->
        exists name s,
          unresolved sys_is_None (systematics self) info name s
          /\ setup_sources sys_is_None make_source self config
             = Raise (unresolved_error s name))
       /\ ((exists s, unused (source_systematics self) info s) ->
           (exists s, unused (source_systematics self) info s
              /\ setup_sources sys_is_None make_source self config
                 = Raise (unused_error s))
           \/ (exists name s,
                 unresolved sys_is_None (systematics self) info name s
                 /\ setup_sources sys_is_None make_source self config
                    = Raise (unresolved_error s name)))
       /\ ((exists s, unused (source_systematics self) info s) ->
           (forall name s,
              ~ unresolved sys_is_None (systematics self) info name s) ->
           exists s, unused (source_systematics self) info s
             /\ setup_sources sys_is_None make_source self config
                = Raise (unused_error s))).
Proof.
  intros Hinfo. unfold setup_sources. rewrite Hinfo. cbn [bind].
  destruct (build_sources sys_is_None make_source self info [] ∅)
    as [[built used]|e] eqn:Hb; cbn [bind fst snd].
  - (* every source was built and attached *)
    apply build_sources_Ok in Hb as [Hres Hused].
    assert (Hnores : forall name s,
               ~ unresolved sys_is_None (systematics self) info name s).
    { intros name s (si & Hin & Hs & Hn).
      destruct (Hres name si s Hin Hs) as [sys Hsys]. congruence. }
    assert (Hraise : forall e,
               check_used (odict_keys (source_systematics self)) used
               = Raise e ->
               exists s, unused (source_systematics self) info s
                 /\ e = unused_error s).
    { intros e Hc.
      apply check_used_Raise in Hc as (s' & Hkey' & Hnot & ->).
      exists s'. split; [| reflexivity]. split; [exact Hkey' |].
      intros name si Hin Hs. apply Hnot. apply Hused. right. eauto. }
    assert (Hchk : (exists s, unused (source_systematics self) info s) ->
              exists s, unused (source_systematics self) info s
                /\ check_used (odict_keys (source_systematics self)) used
                   = Raise (unused_error s)).
    { intros (s & Hkey & Hno).
      destruct (check_used (odict_keys (source_systematics self)) used)
        as [[]|e] eqn:Hc.
      - exfalso. pose proof (check_used_Ok _ _ Hc s Hkey) as Hin.
        apply Hused in Hin as [Hin | (name & si & Hin & Hs)].
        + apply not_elem_of_empty in Hin. exact Hin.
        + exact (Hno name si Hin Hs).
      - destruct (Hraise e eq_refl) as (s' & Hs' & ->). eauto. }
    split; [| split; [| intros md Hmd Hbuild; split; [| split]]].
    + intros [(name & s & Hu) | Hu].
      * exfalso. exact (Hnores name s Hu).
      * destruct (Hchk Hu) as (s & _ & ->). cbn [bind]. eauto.
    + intros e He.
      destruct (check_used (odict_keys (source_systematics self)) used)
        as [[]|e'] eqn:Hc; cbn [bind] in He; [discriminate |].
      injection He as <-. right.
      destruct (Hraise e' eq_refl) as (s & Hs & ->). eauto.
    + intros (name & s & Hu). exfalso. exact (Hnores name s Hu).
    + intros Hu. left. destruct (Hchk Hu) as (s & Hs & ->). cbn [bind]. eauto.
    + intros Hu _. destruct (Hchk Hu) as (s & Hs & ->). cbn [bind]. eauto.
  - (* the loop over the sources raised *)
    split; [eauto | split].
    + intros e' [= <-]. left.
      exact (build_sources_Raise_kinds _ _ _ _ _ Hb).
    + intros md Hmd Hbuild.
      destruct (build_sources_Raise self info md Hmd Hbuild _ _ _ Hb)
        as (name & s & Hu & ->).
      split; [| split].
      * intros _. eauto.
      * intros _. right. eauto.
      * intros _ Hnone. exfalso. exact (Hnone name s Hu).
Qed.

End Calculator_properties.

(** Membership in a list written out: one goal per element. *)
Ltac list_cases H :=
  repeat (apply elem_of_cons in H as [H | H]);
  [ .. | apply elem_of_nil in H; contradiction ].

Lemma example_sources_buildable (info : odict SourceInfo) :
  Forall (fun item => si_type (snd item) = Some (PStr "LSS")) info ->
  sources_buildable example_make_source tt info.
Proof.
  intros Hall name si Hin.
  rewrite Forall_forall in Hall. specialize (Hall _ Hin).
  exists (PStr "LSS"), {| src_body := name; src_systematics := [] |}.
  split; [exact Hall | reflexivity].
Qed.

Lemma setup_sources_completeness_witness :
  (exists name s,
     unresolved example_is_None example_table
       [("lens0", example_source ["bias"; "photoz"]);
        ("lens1", example_source ["shear_m"])] name s
     /\ setup_sources example_is_None example_make_source example_calculator
          config_unresolved
        = Raise (unresolved_error s name))
  /\ (exists s,
       unused (source_systematics example_calculator)
         [("lens0", example_source ["bias"]); ("lens1", example_source [])] s
       /\ setup_sources example_is_None example_make_source
            example_calculator config_unused
          = Raise (unused_error s)).
Proof.
  split.
  - destruct (setup_sources_completeness example_is_None example_make_source
                example_calculator config_unresolved _ eq_refl)
      as (_ & _ & H).
    destruct (H tt eq_refl) as (H1 & _ & _).
    + apply example_sources_buildable. repeat constructor.
    + apply H1. exists "lens0", "photoz", (example_source ["bias"; "photoz"]).
      split; [left |]. split; [right; left | reflexivity].
  - destruct (setup_sources_completeness example_is_None example_make_source
                example_calculator config_unused _ eq_refl)
      as (_ & _ & H).
    destruct (H tt eq_refl) as (_ & _ & H3).
    + apply example_sources_buildable. repeat constructor.
    + apply H3.
      * exists "shear_m". split.
        -- right. left.
        -- intros name si Hin Hs. list_cases Hin;
             injection Hin as -> ->; cbn in Hs.
           ++ list_cases Hs. discriminate Hs.
           ++ apply elem_of_nil in Hs. exact Hs.
      * intros name s (si & Hin & Hs & Hn).
        list_cases Hin; injection Hin as -> ->; cbn in Hs.
        -- list_cases Hs. subst s. discriminate Hn.
        -- apply elem_of_nil in Hs. exact Hs.
Defined.

(** A configuration that breaks both rules is answered with the first
    error only: [shear_m] is listed by no source, and what is raised names
    [photoz] and [lens0], which is not the error of any unlisted
    systematic.  And where the source that lists the undefined [photoz]
    has no type, what is raised is the [KeyError] of ['type'], which names
    neither. *)
Lemma setup_sources_other_error :
  (unused (source_systematics example_calculator) sources_both "shear_m"
   /\ setup_sources example_is_None example_make_source example_calculator
        config_both
      = Raise (unresolved_error "photoz" "lens0")
   /\ forall s, unresolved_error "photoz" "lens0" <> unused_error s)
  /\ (unresolved example_is_None example_table sources_untyped
        "lens0" "photoz"
      /\ setup_sources example_is_None example_make_source
           example_calculator config_untyped
         = Raise (KeyError "type")
      /\ is_ValueError (KeyError "type") = false).
Proof.
  split; [split; [| split] | split; [| split]].
  - split; [right; left |].
    intros name si Hin Hs. unfold sources_both in Hin.
    list_cases Hin; injection Hin as -> ->; cbn in Hs.
    + list_cases Hs; discriminate Hs.
    + apply elem_of_nil in Hs. exact Hs.
  - vm_compute. reflexivity.
  - intros s. apply unresolved_error_not_unused.
  - eexists. split; [left |]. split; [left | reflexivity].
  - vm_compute. reflexivity.
  - reflexivity.
Qed.

(* ===================================================================== *)
(** * Further properties                                                  *)
(* ===================================================================== *)

(** ** Redshift to scale factor *)

Lemma zip_reverse {A B} (l : list A) (k : list B) :
  length l = length k ->
  zip (reverse l) (reverse k) = reverse (zip l k).
Proof.
  revert k. induction l as [| x l IH]; intros [| y k] Hlen;
    try discriminate Hlen; [reflexivity |].
  simpl in Hlen. injection Hlen as Hlen.
  change (zip (x :: l) (y :: k)) with ((x, y) :: zip l k).
  rewrite !reverse_cons.
  rewrite zip_with_app by (rewrite !length_reverse; exact Hlen).
  rewrite (IH k Hlen). reflexivity.
Qed.

(** X1.  [redshift_to_scale_factor] keeps both lengths; the entry for the
    redshift at position [i] moves to position [n - 1 - i] in both
    results, as [1 / (1 + z)] and as the unchanged row; so for arrays of
    equal length the pairs of scale factor and spectrum row are the pairs
    of redshift and row in reverse order. *)
Theorem redshift_to_scale_factor_pairs (z : list float)
    (p_k : list (list float)) :
  let scale := fst (redshift_to_scale_factor z p_k) in
  let p_k_out := snd (redshift_to_scale_factor z p_k) in
  length scale = length z
  /\ length p_k_out = length p_k
  /\ (forall i x, z !! i = Some x ->
        scale !! (length z - S i) = Some (1 / (1 + x))%float)
  /\ (forall i row, p_k !! i = Some row ->
        p_k_out !! (length p_k - S i) = Some row)
  /\ (length z = length p_k ->
      zip scale p_k_out
      = reverse (zip (map (fun x => (1 / (1 + x))%float) z) p_k)).
Proof.
  cbn zeta. unfold redshift_to_scale_factor. cbn [fst snd].
  split; [rewrite length_reverse; apply length_map |].
  split; [apply length_reverse |].
  split; [| split].
  - intros i x Hi. pose proof (lookup_lt_Some _ _ _ Hi) as Hlt.
    rewrite reverse_lookup by (rewrite length_map; lia).
    rewrite length_map.
    replace (length z - S (length z - S i)) with i by lia.
    change (map ?f z) with (f <$> z). rewrite list_lookup_fmap, Hi.
    reflexivity.
  - intros i row Hi. pose proof (lookup_lt_Some _ _ _ Hi) as Hlt.
    rewrite reverse_lookup by lia.
    replace (length p_k - S (length p_k - S i)) with i by lia. exact Hi.
  - intros Hlen. apply zip_reverse. rewrite length_map. exact Hlen.
Qed.

(** ** Construction of the parameter record *)

(** The record holding the arguments as they are. *)
Lemma init_floats_Ok (oc ob hh ns ok neff mnu w x t : float) (mt : string)
    (amp_A amp_s : pyval) :
  (amp_A = PNone /\ type_of amp_s = TFloat)
  \/ (amp_s = PNone /\ type_of amp_A = TFloat) ->
  Mapping.init {| arg_Omega_c := PFloat oc; arg_Omega_b := PFloat ob;
          arg_h := PFloat hh; arg_A_s := amp_A; arg_sigma8 := amp_s;
          arg_n_s := PFloat ns; arg_Omega_k := PFloat ok;
          arg_Neff := PFloat neff; arg_m_nu := PFloat mnu;
          arg_m_nu_type := PStr mt; arg_w0 := PFloat w;
          arg_wa := PFloat x; arg_T_CMB := PFloat t |}
  = Ok {| Omega_c := PFloat oc; Omega_b := PFloat ob; h := PFloat hh;
          A_s := amp_A; sigma8 := amp_s;
          n_s := PFloat ns; Omega_k := PFloat ok; Omega_g := PNone;
          Neff := PFloat neff; m_nu := PFloat mnu; m_nu_type := PStr mt;
          w0 := PFloat w; wa := PFloat x; T_CMB := PFloat t |}.
Proof.
  intros [[-> T] | [-> T]].
  - destruct amp_s; try discriminate T. reflexivity.
  - destruct amp_A; try discriminate T. reflexivity.
Qed.

(** X2.  The constructor succeeds exactly when every numeric argument is
    a float (an int or a bool is not accepted in its place), [m_nu_type]
    is a string, and one of [A_s], [sigma8] is a float while the other is
    [None]; the record then holds the arguments unchanged, with
    [Omega_g = None]. *)
Theorem init_Ok_iff (a : init_args) (r : PyCCLCosmologyConstants) :
  Mapping.init a = Ok r <->
  (type_of (arg_Omega_c a) = TFloat /\ type_of (arg_Omega_b a) = TFloat
   /\ type_of (arg_h a) = TFloat
   /\ type_of (arg_n_s a) = TFloat /\ type_of (arg_Omega_k a) = TFloat
   /\ type_of (arg_Neff a) = TFloat /\ type_of (arg_m_nu a) = TFloat
   /\ type_of (arg_m_nu_type a) = TStr
   /\ type_of (arg_w0 a) = TFloat /\ type_of (arg_wa a) = TFloat
   /\ type_of (arg_T_CMB a) = TFloat
   /\ ((arg_A_s a = PNone /\ type_of (arg_sigma8 a) = TFloat)
       \/ (arg_sigma8 a = PNone /\ type_of (arg_A_s a) = TFloat)))
  /\ r = {| Omega_c := arg_Omega_c a; Omega_b := arg_Omega_b a;
            h := arg_h a; A_s := arg_A_s a; sigma8 := arg_sigma8 a;
            n_s := arg_n_s a; Omega_k := arg_Omega_k a; Omega_g := PNone;
            Neff := arg_Neff a; m_nu := arg_m_nu a;
            m_nu_type := arg_m_nu_type a;
            w0 := arg_w0 a; wa := arg_wa a; T_CMB := arg_T_CMB a |}.
Proof.
  split.
  - intros H. apply init_Ok in H. tauto.
  - intros [(T1 & T2 & T3 & T4 & T5 & T6 & T7 & T8 & T9 & T10 & T11 & Hamp)
            ->].
    destruct a as [a1 a2 a3 aA aS a4 a5 a6 a7 a8 a9 a10 a11].
    cbn [arg_Omega_c arg_Omega_b arg_h arg_A_s arg_sigma8 arg_n_s
         arg_Omega_k arg_Neff arg_m_nu arg_m_nu_type arg_w0 arg_wa
         arg_T_CMB] in *.
    destruct a1; try discriminate T1. destruct a2; try discriminate T2.
    destruct a3; try discriminate T3. destruct a4; try discriminate T4.
    destruct a5; try discriminate T5. destruct a6; try discriminate T6.
    destruct a7; try discriminate T7. destruct a8; try discriminate T8.
    destruct a9; try discriminate T9. destruct a10; try discriminate T10.
    destruct a11; try discriminate T11.
    apply init_floats_Ok. exact Hamp.
Qed.

(** The errors of the constructor. *)
Lemma init_Raise_cases (a : init_args) (e : exn) :
  Mapping.init a = Raise e ->
  e = float_required
  \/ e = string_required
  \/ (e = amplitude_error
      /\ is_None (arg_A_s a) = false /\ is_None (arg_sigma8 a) = false
      /\ type_of (arg_Omega_c a) = TFloat
      /\ type_of (arg_Omega_b a) = TFloat
      /\ type_of (arg_h a) = TFloat).
Proof.
  unfold Mapping.init. intros H.
  destruct (require_float (arg_Omega_c a)) as [?|?] eqn:E1; cbn [bind] in H;
    [apply require_float_Ok in E1 as [_ T1]
    | apply require_float_Raise in E1 as [-> _]; injection H as <-; auto].
  destruct (require_float (arg_Omega_b a)) as [?|?] eqn:E2; cbn [bind] in H;
    [apply require_float_Ok in E2 as [_ T2]
    | apply require_float_Raise in E2 as [-> _]; injection H as <-; auto].
  destruct (require_float (arg_h a)) as [?|?] eqn:E3; cbn [bind] in H;
    [apply require_float_Ok in E3 as [_ T3]
    | apply require_float_Raise in E3 as [-> _]; injection H as <-; auto].
  destruct (init_amplitude (arg_A_s a) (arg_sigma8 a)) as [?|e0] eqn:E4;
    cbn [bind] in H.
  2:{ injection H as <-. unfold init_amplitude in E4.
      destruct (arg_A_s a), (arg_sigma8 a); simpl in E4;
        try discriminate E4; injection E4 as <-; auto 10. }
  repeat match type of H with
  | bind (require_float ?v) _ = Raise _ =>
      let E := fresh "E" in
      destruct (require_float v) as [?|?] eqn:E; cbn [bind] in H;
      [ clear E
      | apply require_float_Raise in E as [-> _]; injection H as <-; auto ]
  end.
  destruct (require_string (arg_m_nu_type a)) as [?|?] eqn:E5;
    cbn [bind] in H.
  2:{ unfold require_string, require_type in E5.
      destruct (pytype_eqb _ _); [discriminate |].
      injection E5 as <-. injection H as <-. auto. }
  repeat match type of H with
  | bind (require_float ?v) _ = Raise _ =>
      let E := fresh "E" in
      destruct (require_float v) as [?|?] eqn:E; cbn [bind] in H;
      [ clear E
      | apply require_float_Raise in E as [-> _]; injection H as <-; auto ]
  end.
  discriminate H.
Qed.

(** X3.  When the constructor fails, the error is one of three: the float
    [TypeError], the string [TypeError], or the amplitude [ValueError];
    and the last one is raised only with both amplitudes supplied and
    [Omega_c], [Omega_b], [h] already accepted. *)
Theorem init_Raise_kinds (a : init_args) (e : exn) :
  Mapping.init a = Raise e ->
  e = float_required
  \/ e = string_required
  \/ (e = amplitude_error
      /\ is_None (arg_A_s a) = false /\ is_None (arg_sigma8 a) = false
      /\ type_of (arg_Omega_c a) = TFloat
      /\ type_of (arg_Omega_b a) = TFloat
      /\ type_of (arg_h a) = TFloat).
Proof. exact (init_Raise_cases a e). Qed.

Lemma init_Raise_kinds_witness :
  amplitude_error = float_required
  \/ amplitude_error = string_required
  \/ (amplitude_error = amplitude_error
      /\ is_None (PFloat 2.1e-9) = false /\ is_None (PFloat 0.8) = false
      /\ type_of (PFloat 0.25) = TFloat
      /\ type_of (PFloat 0.05) = TFloat
      /\ type_of (PFloat 0.7) = TFloat).
Proof.
  apply (init_Raise_kinds (args_with (PFloat 2.1e-9) (PFloat 0.8))).
  reflexivity.
Defined.

(** X4.  For a constructed record, [asdict] without its [Omega_g] entry is
    a set of keyword arguments from which the constructor builds the same
    record again; with the [Omega_g] entry left in, the call is refused,
    since [Omega_g] is not a parameter of the constructor. *)
Theorem asdict_round_trip (a : init_args) (r : PyCCLCosmologyConstants) :
  Mapping.init a = Ok r ->
  init_kwargs (delete "Omega_g" (asdict r)) = Ok r
  /\ init_kwargs (asdict r)
     = Raise (TypeError "got an unexpected keyword argument").
Proof.
  intros H. apply init_Ok in H.
  destruct H as (-> & T1 & T2 & T3 & T4 & T5 & T6 & T7 & T8 & T9 & T10 & T11
                 & Hamp).
  destruct a as [a1 a2 a3 aA aS a4 a5 a6 a7 a8 a9 a10 a11].
  cbn [arg_Omega_c arg_Omega_b arg_h arg_A_s arg_sigma8 arg_n_s
       arg_Omega_k arg_Neff arg_m_nu arg_m_nu_type arg_w0 arg_wa
       arg_T_CMB] in *.
  destruct a1; try discriminate T1. destruct a2; try discriminate T2.
  destruct a3; try discriminate T3. destruct a4; try discriminate T4.
  destruct a5; try discriminate T5. destruct a6; try discriminate T6.
  destruct a7; try discriminate T7. destruct a8; try discriminate T8.
  destruct a9; try discriminate T9. destruct a10; try discriminate T10.
  destruct a11; try discriminate T11.
  destruct Hamp as [[-> T] | [-> T]].
  - destruct aS; try discriminate T. split; vm_compute; reflexivity.
  - destruct aA; try discriminate T. split; vm_compute; reflexivity.
Qed.

Lemma asdict_round_trip_witness :
  exists r,
    Mapping.init (args_with PNone (PFloat 0.8)) = Ok r
    /\ init_kwargs (delete "Omega_g" (asdict r)) = Ok r.
Proof.
  destruct (Mapping.init (args_with PNone (PFloat 0.8))) as [r|e] eqn:E.
  - exists r. split; [reflexivity |].
    exact (proj1 (asdict_round_trip _ r E)).
  - vm_compute in E. discriminate E.
Defined.

(** ** The CosmoSIS mapper *)

Lemma float_of_int_Raise n e :
  float_of_int n = Raise e ->
  e = OverflowError "int too large to convert to float".
Proof.
  unfold float_of_int.
  destruct (binary_normalize prec emax n 0 false); congruence.
Qed.

Lemma py_float_Raise v e :
  py_float v = Raise e ->
  match e with TypeError _ | OverflowError _ => True | _ => False end.
Proof.
  unfold py_float. destruct v; cbn [as_num num_float];
    try (intros [= <-]; exact I);
    intros H; apply float_of_int_Raise in H as ->; exact I.
Qed.

(** An operator applied to a value and a float: a float computed from the
    value as a double, or the value's failure to be one. *)
Lemma py_add_float_r v (c : float) :
  py_add v (PFloat c) =
  match py_float v with
  | Ok d => Ok (PFloat (d + c))
  | Raise e =>
      match as_num v with
      | Some _ => Raise e
      | None => Raise (operand_error "+")
      end
  end.
Proof.
  unfold py_add, py_float.
  destruct v; cbn [as_num num_binop num_float bind]; try reflexivity;
    destruct (float_of_int _); reflexivity.
Qed.

Lemma py_mul_float_r v (c : float) :
  py_mul v (PFloat c) =
  match py_float v with
  | Ok d => Ok (PFloat (d * c))
  | Raise e =>
      match as_num v with
      | Some _ => Raise e
      | None => Raise (operand_error "*")
      end
  end.
Proof.
  unfold py_mul, py_float.
  destruct v; cbn [as_num num_binop num_float bind]; try reflexivity;
    destruct (float_of_int _); reflexivity.
Qed.

Lemma py_add_float_r_Ok v (c : float) w :
  py_add v (PFloat c) = Ok w ->
  exists d, py_float v = Ok d /\ w = PFloat (d + c).
Proof.
  rewrite py_add_float_r. destruct (py_float v) as [d|e].
  - intros [= <-]. eauto.
  - destruct (as_num v); discriminate.
Qed.

Lemma py_mul_float_r_Ok v (c : float) w :
  py_mul v (PFloat c) = Ok w ->
  exists d, py_float v = Ok d /\ w = PFloat (d * c).
Proof.
  rewrite py_mul_float_r. destruct (py_float v) as [d|e].
  - intros [= <-]. eauto.
  - destruct (as_num v); discriminate.
Qed.

(** X5.  The mapper returns a record exactly when the eight keys
    [omega_c], [omega_b], [h0], [sigma_8], [n_s], [omega_k], [w], [wa]
    hold floats, [omega_nu] holds a number and [delta_neff], if present,
    holds a number (numbers being taken as doubles); the record is then
    the raw values, with [sigma8] as the amplitude and [A_s = None],
    [Neff = delta_neff + 3.046], [m_nu = omega_nu * h * h * 93.14],
    the sign of [wa] flipped, [m_nu_type] "normal", [T_CMB = 2.7255]. *)
Theorem from_cosmosis_camb_Ok_iff (m : gmap string pyval)
    (r : PyCCLCosmologyConstants) :
  from_cosmosis_camb m = Ok r <->
  exists (oc ob hh s8 ns ok w x d on : float) (v : pyval),
    m !! "omega_c" = Some (PFloat oc) /\ m !! "omega_b" = Some (PFloat ob)
    /\ m !! "h0" = Some (PFloat hh) /\ m !! "sigma_8" = Some (PFloat s8)
    /\ m !! "n_s" = Some (PFloat ns) /\ m !! "omega_k" = Some (PFloat ok)
    /\ m !! "w" = Some (PFloat w) /\ m !! "wa" = Some (PFloat x)
    /\ py_float (dict_get m "delta_neff" (PFloat 0)) = Ok d
    /\ m !! "omega_nu" = Some v /\ py_float v = Ok on
    /\ r = {| Omega_c := PFloat oc; Omega_b := PFloat ob; h := PFloat hh;
              A_s := PNone; sigma8 := PFloat s8;
              n_s := PFloat ns; Omega_k := PFloat ok; Omega_g := PNone;
              Neff := PFloat (d + 3.046);
              m_nu := PFloat (on * hh * hh * 93.14);
              m_nu_type := PStr "normal";
              w0 := PFloat w; wa := PFloat (- x);
              T_CMB := PFloat 2.7255 |}.
Proof.
  split.
  - intros H. apply from_cosmosis_camb_Ok in H.
    destruct H as (oc & ob & hh & s8 & ns & ok & w & x & neff & mnu & v
                   & H1 & H2 & H3 & H4 & H5 & H6 & H7 & H8 & H9 & HN & HM
                   & ->).
    apply py_add_float_r_Ok in HN as (d & Hd & [= ->]).
    apply bind_Ok in HM as (t1 & Ht1 & HM).
    apply bind_Ok in HM as (t2 & Ht2 & HM).
    apply py_mul_float_r_Ok in Ht1 as (on & Hon & ->).
    rewrite py_mul_floats in Ht2. injection Ht2 as <-.
    rewrite py_mul_floats in HM. injection HM as <-.
    exists oc, ob, hh, s8, ns, ok, w, x, d, on, v. auto 15.
  - intros (oc & ob & hh & s8 & ns & ok & w & x & d & on & v
            & H1 & H2 & H3 & H4 & H5 & H6 & H7 & H8 & Hd & Hv & Hon & ->).
    unfold from_cosmosis_camb, getitem.
    rewrite H1, H2, H3, H4, H5, H6, H7, H8, Hv. cbn [bind].
    rewrite py_add_float_r, Hd. cbn [bind].
    rewrite py_mul_float_r, Hon. cbn [bind].
    rewrite !py_mul_floats. cbn [bind].
    rewrite py_neg_float. cbn [bind].
    reflexivity.
Qed.

(** X6.  The mapper looks at ten keys only: two blocks that agree on the
    nine subscripted keys and on [delta_neff] are mapped alike, record or
    error, whatever else they hold. *)
Theorem from_cosmosis_camb_keys_read (m1 m2 : gmap string pyval) :
  (forall k, k ∈ keys_read -> m1 !! k = m2 !! k) ->
  from_cosmosis_camb m1 = from_cosmosis_camb m2.
Proof.
  intros H.
  assert (E : forall k, bool_decide (k ∈ keys_read) = true ->
                m1 !! k = m2 !! k).
  { intros k Hk. apply H. apply bool_decide_eq_true in Hk. exact Hk. }
  unfold from_cosmosis_camb, getitem, dict_get.
  rewrite (E "omega_c"), (E "omega_b"), (E "h0"), (E "sigma_8"), (E "n_s"),
    (E "omega_k"), (E "delta_neff"), (E "omega_nu"), (E "w"), (E "wa")
    by reflexivity.
  reflexivity.
Qed.

Lemma from_cosmosis_camb_keys_read_witness :
  from_cosmosis_camb scenario_params
  = from_cosmosis_camb (<["comment" := PStr "run 7"]> scenario_params).
Proof.
  apply from_cosmosis_camb_keys_read.
  intros k Hk. rewrite lookup_insert_ne; [reflexivity |].
  intros <-. pose proof (bool_decide_pack _ Hk) as Hb.
  vm_compute in Hb. exact Hb.
Defined.

Lemma num_binop_Raise opz opf x y e :
  num_binop opz opf x y = Raise e ->
  match e with TypeError _ | OverflowError _ => True | _ => False end.
Proof.
  unfold num_binop. destruct x as [a|a], y as [b|b];
    cbn [num_float bind]; try discriminate.
  - destruct (float_of_int a) eqn:E; cbn [bind]; [discriminate |].
    intros [= <-]. apply float_of_int_Raise in E as ->. exact I.
  - destruct (float_of_int b) eqn:E; cbn [bind]; [discriminate |].
    intros [= <-]. apply float_of_int_Raise in E as ->. exact I.
Qed.

Lemma py_add_Raise a b e :
  py_add a b = Raise e ->
  match e with TypeError _ | OverflowError _ => True | _ => False end.
Proof.
  unfold py_add. destruct (as_num a) eqn:Ea, (as_num b) eqn:Eb;
    try apply num_binop_Raise;
    destruct a, b; try discriminate; intros [= <-]; exact I.
Qed.

Lemma str_repeat_Raise s n e :
  str_repeat s n = Raise e ->
  match e with OverflowError _ | MemoryError _ => True | _ => False end.
Proof.
  unfold str_repeat, repeat_count.
  destruct (_ || _)%bool; cbn [bind]; [intros [= <-]; exact I |].
  repeat match goal with
         | |- context [if ?c then _ else _] => destruct c
         end; try discriminate; intros [= <-]; exact I.
Qed.

Lemma list_repeat_Raise l n e :
  list_repeat l n = Raise e ->
  match e with OverflowError _ | MemoryError _ => True | _ => False end.
Proof.
  unfold list_repeat, repeat_count.
  destruct (_ || _)%bool; cbn [bind]; [intros [= <-]; exact I |].
  repeat match goal with
         | |- context [if ?c then _ else _] => destruct c
         end; try discriminate; intros [= <-]; exact I.
Qed.

(** A product fails with a [TypeError] or an [OverflowError], or, when one
    side is a sequence, with the [MemoryError] of a repetition. *)
Lemma py_mul_Raise a b e :
  py_mul a b = Raise e ->
  match e with
  | TypeError _ | OverflowError _ => True
  | MemoryError _ => as_num a = None \/ as_num b = None
  | _ => False
  end.
Proof.
  unfold py_mul. destruct (as_num a) as [[n|f]|] eqn:Ea,
    (as_num b) as [[n'|f']|] eqn:Eb;
    try (intros H; apply num_binop_Raise in H;
         destruct e; try contradiction; exact I);
    try (intros [= <-]; exact I).
  - destruct b; try (intros [= <-]; exact I); intros H;
      [apply str_repeat_Raise in H | apply list_repeat_Raise in H];
      destruct e; try contradiction; auto.
  - destruct a; try (intros [= <-]; exact I); intros H;
      [apply str_repeat_Raise in H | apply list_repeat_Raise in H];
      destruct e; try contradiction; auto.
Qed.

(** A product that is a sequence has a sequence on one side. *)
Lemma py_mul_Ok_seq a b c :
  py_mul a b = Ok c -> as_num c = None ->
  as_num a = None \/ as_num b = None.
Proof.
  unfold py_mul. destruct (as_num a) as [x|] eqn:Ea; [| auto].
  destruct (as_num b) as [y|] eqn:Eb; [| auto].
  unfold num_binop. intros H Hc. exfalso.
  destruct x as [n|f], y as [n'|f']; cbn [num_float bind] in H;
    repeat match type of H with
           | bind ?r _ = Ok _ => destruct r; cbn [bind] in H
           end;
    try discriminate H; injection H as <-; discriminate Hc.
Qed.

Lemma py_neg_Raise a e :
  py_neg a = Raise e ->
  match e with TypeError _ | OverflowError _ => True | _ => False end.
Proof.
  unfold py_neg. destruct a; cbn [as_num]; try discriminate;
    intros [= <-]; exact I.
Qed.

Lemma bind_Raise_cases {A B} (r : result A) (k : A -> result B) e :
  bind r k = Raise e ->
  r = Raise e \/ exists a, r = Ok a /\ k a = Raise e.
Proof. destruct r as [a|e']; simpl; [eauto | intros [= ->]; auto]. Qed.

Lemma getitem_Raise_inv {V} (d : gmap string V) k e :
  getitem d k = Raise e -> d !! k = None /\ e = KeyError k.
Proof. unfold getitem. destruct (d !! k); [discriminate |]. intros [= <-]. auto. Qed.

(** One subscript of the mapper: its [KeyError], or the value read. *)
Tactic Notation "subscript_step" hyp(H) ident(x) ident(E) :=
  apply bind_Raise_cases in H as [H | (x & E & H)];
  [ let HN := fresh in
    apply getitem_Raise_inv in H as [HN ->]; split; [| exact HN];
    apply (bool_decide_unpack _); vm_compute; exact I
  | apply getitem_Ok in E ].

(** X7.  When the mapper fails, the error is a [KeyError] naming one of
    the nine subscripted keys, absent from the block, or a [TypeError] or
    [OverflowError] from a value that is not a usable number, or the
    [MemoryError] of a repetition in the product of line 130, where
    [omega_nu] or [h0] is then a string or a list; it never is the
    amplitude [ValueError], the amplitude being always [sigma_8] alone. *)
Theorem from_cosmosis_camb_Raise_kinds (m : gmap string pyval) (e : exn) :
  from_cosmosis_camb m = Raise e ->
  match e with
  | KeyError k => k ∈ required_keys /\ m !! k = None
  | TypeError _ | OverflowError _ => True
  | MemoryError _ =>
      exists omega_nu h0,
        m !! "omega_nu" = Some omega_nu /\ m !! "h0" = Some h0
        /\ (as_num omega_nu = None \/ as_num h0 = None)
  | _ => False
  end.
Proof.
  unfold from_cosmosis_camb. intros H.
  subscript_step H x1 E1. subscript_step H x2 E2. subscript_step H x3 E3.
  subscript_step H x4 E4. subscript_step H x5 E5. subscript_step H x6 E6.
  apply bind_Raise_cases in H as [H | (neff & _ & H)].
  { apply py_add_Raise in H. destruct e; try contradiction; exact I. }
  subscript_step H x7 E7.
  assert (K : forall t, as_num t = None \/ as_num x3 = None ->
                (as_num t = None -> as_num x7 = None \/ as_num x3 = None) ->
                exists omega_nu h0,
                  m !! "omega_nu" = Some omega_nu /\ m !! "h0" = Some h0
                  /\ (as_num omega_nu = None \/ as_num h0 = None)).
  { intros t [Ht | Hh] Hseq; exists x7, x3;
      (split; [exact E7 |]; split; [exact E3 |]); auto. }
  apply bind_Raise_cases in H as [H | (t1 & M1 & H)].
  { apply py_mul_Raise in H. destruct e; try contradiction; try exact I.
    apply (K x7 H). auto. }
  apply bind_Raise_cases in H as [H | (t2 & M2 & H)].
  { apply py_mul_Raise in H. destruct e; try contradiction; try exact I.
    apply (K t1 H). exact (py_mul_Ok_seq _ _ _ M1). }
  apply bind_Raise_cases in H as [H | (mnu & _ & H)].
  { apply py_mul_Raise in H. destruct e; try contradiction; try exact I.
    destruct H as [H | H]; [| discriminate H].
    apply (K t2 (or_introl H)). intros _.
    destruct (py_mul_Ok_seq _ _ _ M2 H) as [H1 | H1]; [| auto].
    exact (py_mul_Ok_seq _ _ _ M1 H1). }
  subscript_step H x8 E8. subscript_step H x9 E9.
  apply bind_Raise_cases in H as [H | (nwa & _ & H)].
  { apply py_neg_Raise in H. destruct e; try contradiction; exact I. }
  apply init_Raise_cases in H as [-> | [-> | (_ & HA & _)]];
    [exact I | exact I | discriminate HA].
Qed.

Lemma from_cosmosis_camb_Raise_kinds_witness :
  ("w" ∈ required_keys /\ delete "w" scenario_params !! "w" = None)
  /\ exists omega_nu h0,
       oversized_params !! "omega_nu" = Some omega_nu
       /\ oversized_params !! "h0" = Some h0
       /\ (as_num omega_nu = None \/ as_num h0 = None).
Proof.
  split.
  - apply (from_cosmosis_camb_Raise_kinds (delete "w" scenario_params)
             (KeyError "w")).
    vm_compute. reflexivity.
  - apply (from_cosmosis_camb_Raise_kinds oversized_params
             (MemoryError EmptyString)).
    vm_compute. reflexivity.
Defined.

(** ** Ordered dictionaries *)

Lemma odict_get_set_eq {V} (d : odict V) k v :
  odict_get (odict_set d k v) k = Some v.
Proof.
  induction d as [| [k' v'] d IH]; cbn [odict_set odict_get].
  - rewrite String.eqb_refl. reflexivity.
  - destruct (String.eqb k' k) eqn:E; cbn [odict_get]; rewrite E;
      [reflexivity | exact IH].
Qed.

Lemma odict_get_set_ne {V} (d : odict V) k k' v :
  k <> k' -> odict_get (odict_set d k v) k' = odict_get d k'.
Proof.
  intros Hne. induction d as [| [k0 v0] d IH]; cbn [odict_set odict_get].
  - destruct (String.eqb k k') eqn:E; [| reflexivity].
    apply String.eqb_eq in E. contradiction.
  - destruct (String.eqb k0 k) eqn:E; cbn [odict_get].
    + apply String.eqb_eq in E as ->.
      destruct (String.eqb k k') eqn:E'; [| reflexivity].
      apply String.eqb_eq in E'. contradiction.
    + rewrite IH. reflexivity.
Qed.

Lemma odict_set_id {V} (d : odict V) k v :
  odict_get d k = Some v -> odict_set d k v = d.
Proof.
  induction d as [| [k' v'] d IH]; cbn [odict_set odict_get];
    [discriminate |].
  destruct (String.eqb k' k) eqn:E.
  - intros [= ->]. reflexivity.
  - intros H. rewrite (IH H). reflexivity.
Qed.

Lemma odict_get_None {V} (d : odict V) k :
  odict_get d k = None <-> k ∉ odict_keys d.
Proof.
  unfold odict_keys. induction d as [| [k' v'] d IH]; cbn [odict_get map fst].
  - split; [intros _ H; apply elem_of_nil in H; exact H | reflexivity].
  - destruct (String.eqb k' k) eqn:E.
    + apply String.eqb_eq in E as ->. split; [discriminate |].
      intros H. exfalso. apply H. left.
    + apply String.eqb_neq in E. rewrite IH. split.
      * intros H Hin. apply elem_of_cons in Hin as [-> | Hin];
          [congruence | exact (H Hin)].
      * intros H Hin. apply H. right. exact Hin.
Qed.

Lemma odict_get_Some_elem {V} (d : odict V) k v :
  odict_get d k = Some v -> (k, v) ∈ d.
Proof.
  induction d as [| [k' v'] d IH]; cbn [odict_get]; [discriminate |].
  destruct (String.eqb k' k) eqn:E.
  - apply String.eqb_eq in E as ->. intros [= ->]. left.
  - intros H. right. exact (IH H).
Qed.

Lemma odict_get_elem {V} (d : odict V) k v :
  NoDup (odict_keys d) -> (k, v) ∈ d -> odict_get d k = Some v.
Proof.
  unfold odict_keys. induction d as [| [k' v'] d IH]; intros ND Hin.
  - apply elem_of_nil in Hin. contradiction.
  - cbn [map fst] in ND. apply NoDup_cons in ND as [Hk ND].
    cbn [odict_get]. apply elem_of_cons in Hin as [[= -> ->] | Hin].
    + rewrite String.eqb_refl. reflexivity.
    + destruct (String.eqb k' k) eqn:E; [| exact (IH ND Hin)].
      apply String.eqb_eq in E as ->. exfalso. apply Hk.
      apply list_elem_of_fmap. exists (k, v). auto.
Qed.

Lemma odict_keys_set {V} (d : odict V) k v :
  odict_keys (odict_set d k v)
  = if bool_decide (k ∈ odict_keys d) then odict_keys d
    else odict_keys d ++ [k].
Proof.
  unfold odict_keys. induction d as [| [k' v'] d IH];
    cbn [odict_set map fst app].
  - rewrite bool_decide_eq_false_2; [reflexivity |].
    intros H. apply elem_of_nil in H. exact H.
  - destruct (String.eqb k' k) eqn:E.
    + apply String.eqb_eq in E as ->.
      rewrite bool_decide_eq_true_2 by left. reflexivity.
    + apply String.eqb_neq in E. cbn [map fst]. rewrite IH.
      destruct (bool_decide (k ∈ map fst d)) eqn:B.
      * apply bool_decide_eq_true in B.
        rewrite bool_decide_eq_true_2 by (right; exact B). reflexivity.
      * apply bool_decide_eq_false in B.
        rewrite bool_decide_eq_false_2; [reflexivity |].
        intros Hin. apply elem_of_cons in Hin as [-> | Hin];
          [congruence | exact (B Hin)].
Qed.

(** ** Merging parsed data into a configuration *)

Lemma update_dict_CDict d items :
  update_dict d (CDict items) = update_items items d.
Proof.
  cbn [update_dict]. revert d.
  induction items as [| [k v] rest IH]; intros d; [reflexivity |].
  cbn [update_items]. unfold update_item. destruct v as [v | u'].
  - cbn [is_mapping]. destruct (cfg_setitem d k (CVal v)); cbn [bind];
      [apply IH | reflexivity].
  - cbn [is_mapping]. destruct (cfg_get d k (CDict [])) as [sub|];
      cbn [bind]; [| reflexivity].
    destruct (update_dict sub (CDict u')) as [m|]; cbn [bind];
      [| reflexivity].
    destruct (cfg_setitem d k m); cbn [bind]; [apply IH | reflexivity].
Qed.

Lemma update_item_CVal k v d :
  update_item k (CVal v) (CDict d) = Ok (CDict (odict_set d k (CVal v))).
Proof. reflexivity. Qed.

Lemma update_item_CDict k u' d :
  update_item k (CDict u') (CDict d) =
  do m <- update_dict (default (CDict []) (odict_get d k)) (CDict u');
  Ok (CDict (odict_set d k m)).
Proof.
  unfold update_item. cbn [is_mapping cfg_get bind].
  destruct (update_dict _ (CDict u')); reflexivity.
Qed.

(** One turn of the loop on a mapping gives a mapping that differs at the
    key only. *)
Lemma update_item_Ok k v d res :
  update_item k v (CDict d) = Ok res ->
  exists m, res = CDict (odict_set d k m)
    /\ match v with
       | CVal _ => m = v
       | CDict _ =>
           update_dict (default (CDict []) (odict_get d k)) v = Ok m
       end.
Proof.
  destruct v as [v | u'].
  - rewrite update_item_CVal. intros [= <-]. eauto.
  - rewrite update_item_CDict.
    destruct (update_dict _ (CDict u')) as [m|] eqn:E; cbn [bind];
      [| discriminate].
    intros [= <-]. eauto.
Qed.

Lemma unique_keys_CDict items :
  unique_keys (CDict items) <->
  NoDup (map fst items) /\ Forall (fun kv => unique_keys (snd kv)) items.
Proof.
  cbn [unique_keys].
  assert (E : forall l : list (string * cfg),
             (fix all (items : list (string * cfg)) : Prop :=
                match items with
                | [] => True
                | (_, v) :: rest => unique_keys v /\ all rest
                end) l
             <-> Forall (fun kv => unique_keys (snd kv)) l).
  { induction l as [| [k v] rest IH].
    - split; [constructor | exact (fun _ => I)].
    - rewrite Forall_cons, IH. reflexivity. }
  rewrite E. reflexivity.
Qed.

Lemma update_items_lookup items :
  NoDup (odict_keys items) ->
  forall d res,
    update_items items (CDict d) = Ok res ->
    exists r, res = CDict r /\ forall k,
      match odict_get items k with
      | None => odict_get r k = odict_get d k
      | Some (CVal v) => odict_get r k = Some (CVal v)
      | Some (CDict u') =>
          exists m,
            update_dict (default (CDict []) (odict_get d k)) (CDict u')
            = Ok m
            /\ odict_get r k = Some m
      end.
Proof.
  unfold odict_keys.
  induction items as [| [k0 v0] rest IH]; intros ND d res H.
  - cbn [update_items] in H. injection H as <-. exists d.
    split; [reflexivity |]. intros k. reflexivity.
  - cbn [map fst] in ND. apply NoDup_cons in ND as [Hk0 ND].
    cbn [update_items] in H.
    destruct (update_item k0 v0 (CDict d)) as [d1|] eqn:E1; cbn [bind] in H;
      [| discriminate].
    apply update_item_Ok in E1 as (m & -> & Hm).
    destruct (IH ND _ _ H) as (r & -> & Hr).
    exists r. split; [reflexivity |]. intros k. cbn [odict_get].
    destruct (String.eqb k0 k) eqn:E.
    + apply String.eqb_eq in E as <-.
      specialize (Hr k0).
      rewrite (proj2 (odict_get_None rest k0) Hk0) in Hr.
      rewrite odict_get_set_eq in Hr.
      destruct v0 as [v | u']; [subst m; exact Hr | eauto].
    + apply String.eqb_neq in E. specialize (Hr k).
      rewrite (odict_get_set_ne _ _ _ _ E) in Hr. exact Hr.
Qed.

Lemma update_dict_in_place_CDict h d items :
  update_dict_in_place h d (CDict items) = update_items_in_place items d h.
Proof.
  cbn [update_dict_in_place]. revert h.
  induction items as [| [k v] rest IH]; intros h; [reflexivity |].
  cbn [update_items_in_place]. unfold update_item_in_place.
  destruct v as [x | u'].
  - destruct (store_setitem h d k (HVal x)); cbn [bind];
      [apply IH | reflexivity].
  - destruct (store_get h d k) as [g|]; cbn [bind]; [| reflexivity].
    destruct (update_dict_in_place (fst g) (snd g) (CDict u')) as [m|];
      cbn [bind]; [| reflexivity].
    destruct (store_setitem (fst m) d k (snd m)); cbn [bind];
      [apply IH | reflexivity].
Qed.

(** A representation reads the store at its own addresses only. *)
Lemma repr_frame h :
  (forall x t F, repr h x t F ->
     forall h', (forall l, l ∈ F -> h' !! l = h !! l) -> repr h' x t F)
  /\ (forall es ts F, reprs h es ts F ->
        forall h', (forall l, l ∈ F -> h' !! l = h !! l) -> reprs h' es ts F).
Proof.
  apply repr_mutual_ind.
  - intros v F -> h' _. apply repr_val. reflexivity.
  - intros l es ts F0 F Hl _ IH Hn -> h' Hh.
    apply (repr_ref h' l es ts F0); [| | exact Hn | reflexivity].
    + rewrite Hh by set_solver. exact Hl.
    + apply IH. intros l' Hl'. apply Hh. set_solver.
  - intros F -> h' _. apply reprs_nil. reflexivity.
  - intros k x t es ts F1 F2 F _ IH1 _ IH2 Hd -> h' Hh.
    apply (reprs_cons h' k x t es ts F1 F2); [| | exact Hd | reflexivity].
    + apply IH1. intros l Hl. apply Hh. set_solver.
    + apply IH2. intros l Hl. apply Hh. set_solver.
Qed.

(** The addresses of a representation are in use. *)
Lemma repr_allocated h :
  (forall x t F, repr h x t F -> forall l, l ∈ F -> l < length h)
  /\ (forall es ts F, reprs h es ts F -> forall l, l ∈ F -> l < length h).
Proof.
  apply repr_mutual_ind.
  - intros v F -> l Hl. set_solver.
  - intros l es ts F0 F Hl _ IH Hn -> l' Hl'.
    apply elem_of_union in Hl' as [Hl' | Hl']; [| exact (IH l' Hl')].
    apply elem_of_singleton in Hl' as ->.
    exact (lookup_lt_Some _ _ _ Hl).
  - intros F -> l Hl. set_solver.
  - intros k x t es ts F1 F2 F _ IH1 _ IH2 Hd -> l Hl.
    apply elem_of_union in Hl as [Hl | Hl]; auto.
Qed.


(** Reading and replacing one entry of a represented dictionary: the
    addresses split into those of the entry under [k] (none if there is no
    such entry) and those of the other entries, and the entry can be
    replaced by anything that keeps off the others. *)
Lemma reprs_entry h es ts F :
  reprs h es ts F ->
  forall k,
    exists F1 F2,
      F1 ## F2 /\ F = F1 ∪ F2
      /\ match odict_get es k with
         | Some x => exists t, odict_get ts k = Some t /\ repr h x t F1
         | None => odict_get ts k = None /\ F1 = ∅
         end
      /\ forall h' x' t' F1',
           repr h' x' t' F1' -> F1' ## F2 ->
           (forall l, l ∈ F2 -> h' !! l = h !! l) ->
           reprs h' (odict_set es k x') (odict_set ts k t') (F1' ∪ F2).
Proof.
  induction 1 as [F -> | k0 x0 t0 es ts Fa Fb F Hx Hes IH Hd ->]; intros k.
  - exists ∅, ∅. cbn [odict_get odict_set].
    split; [set_solver |]. split; [set_solver |]. split; [auto |].
    intros h' x' t' F1' Hr _ _.
    apply (reprs_cons h' k x' t' [] [] F1' ∅);
      [exact Hr | apply reprs_nil; reflexivity | set_solver | set_solver].
  - cbn [odict_get odict_set]. destruct (String.eqb k0 k) eqn:E.
    + exists Fa, Fb. split; [exact Hd |]. split; [reflexivity |].
      split; [eauto |].
      intros h' x' t' F1' Hr Hdis Hh.
      apply (reprs_cons h' k0 x' t' es ts F1' Fb);
        [exact Hr | | exact Hdis | reflexivity].
      exact (proj2 (repr_frame h) _ _ _ Hes h' Hh).
    + destruct (IH k) as (F1 & F2 & Hd1 & -> & Hk & Hset).
      exists F1, (Fa ∪ F2). split; [set_solver |]. split; [set_solver |].
      split; [exact Hk |].
      intros h' x' t' F1' Hr Hdis Hh.
      apply (reprs_cons h' k0 x0 t0 _ _ Fa (F1' ∪ F2)).
      * apply (proj1 (repr_frame h) _ _ _ Hx). intros l Hl.
        apply Hh. set_solver.
      * apply Hset; [exact Hr | set_solver |].
        intros l Hl. apply Hh. set_solver.
      * set_solver.
      * set_solver.
Qed.

Lemma items_at_Some h l es : h !! l = Some es -> items_at h l = es.
Proof. intros H. exact (f_equal (default []) H). Qed.

(** [d.get(k, {})] on a represented dictionary: the entry, or a new empty
    object, is represented in its turn, apart from the other entries. *)
Lemma store_get_repr h l es ts F0 k :
  h !! l = Some es -> reprs h es ts F0 -> l ∉ F0 ->
  exists h1 x F1 F2,
    store_get h (HRef l) k = Ok (h1, x)
    /\ repr h1 x (default (CDict []) (odict_get ts k)) F1
    /\ F1 ## F2
    /\ (forall l', l' ∈ F2 -> l' ∈ F0)
    /\ (forall l', l' ∈ F1 -> l' ∈ F0 \/ length h <= l')
    /\ length h <= length h1
    /\ (forall l', l' < length h -> h1 !! l' = h !! l')
    /\ forall h' x' t' F1',
         repr h' x' t' F1' -> F1' ## F2 ->
         (forall l', l' ∈ F2 -> h' !! l' = h !! l') ->
         reprs h' (odict_set es k x') (odict_set ts k t') (F1' ∪ F2).
Proof.
  intros Hl Hes Hn.
  destruct (reprs_entry h es ts F0 Hes k) as (F1 & F2 & Hd & -> & Hk & Hset).
  unfold store_get. rewrite (items_at_Some _ _ _ Hl).
  destruct (odict_get es k) as [x|].
  - destruct Hk as (t & -> & Hx). exists h, x, F1, F2.
    split; [reflexivity |]. split; [exact Hx |]. split; [exact Hd |].
    split; [set_solver |]. split; [set_solver |]. split; [lia |].
    split; [reflexivity | exact Hset].
  - destruct Hk as [-> ->]. exists (h ++ [[]]), (HRef (length h)), {[length h]}, F2.
    split; [reflexivity |]. split.
    { apply (repr_ref _ (length h) [] [] ∅);
        [ apply list_lookup_middle; reflexivity
        | apply reprs_nil; reflexivity | set_solver | set_solver ]. }
    split.
    { intros l' H1 H2. apply elem_of_singleton in H1 as ->.
      assert (length h < length h); [| lia].
      apply (proj2 (repr_allocated h) _ _ _ Hes). set_solver. }
    split; [set_solver |]. split.
    { intros l' H1. apply elem_of_singleton in H1 as ->. right. lia. }
    split; [rewrite length_app; cbn; lia |].
    split; [intros l' Hl'; apply lookup_app_l; exact Hl' | exact Hset].
Qed.

(** One turn of the loop in place does what the turn on configurations
    does, given that the recursive call does. *)
Lemma update_item_refines k v :
  (forall h x t F, repr h x t F ->
     in_place h x F (update_dict t v) (update_dict_in_place h x v)) ->
  forall h d t F, repr h d t F ->
    in_place h d F (update_item k v t)
      (do h' <- update_item_in_place k v d h; Ok (h', d)).
Proof.
  intros IHv h d t F Hr.
  pose proof (proj1 (repr_allocated h) _ _ _ Hr) as Hall.
  destruct Hr as [c F _ | l es ts F0 F Hl Hes Hn ->].
  { destruct v; reflexivity. }
  assert (Hlen : l < length h) by exact (lookup_lt_Some _ _ _ Hl).
  destruct v as [c | u'].
  - (* a scalar or list is written under [k] *)
    rewrite update_item_CVal. unfold update_item_in_place, store_setitem.
    rewrite (items_at_Some _ _ _ Hl). cbn [bind].
    destruct (reprs_entry h es ts F0 Hes k)
      as (F1 & F2 & Hd & -> & _ & Hset).
    set (h1 := <[l := odict_set es k (HVal c)]> h).
    exists h1, ({[l]} ∪ (∅ ∪ F2)).
    split; [reflexivity |]. split.
    { apply (repr_ref h1 l (odict_set es k (HVal c)) _ (∅ ∪ F2));
        [ apply list_lookup_insert_eq; exact Hlen | | set_solver
        | reflexivity ].
      apply Hset; [apply repr_val; reflexivity | set_solver |].
      intros l' Hl'. apply list_lookup_insert_ne. set_solver. }
    split; [intros l' Hl'; left; set_solver |].
    split; [unfold h1; rewrite length_insert; lia |].
    intros l' _ Hl'. apply list_lookup_insert_ne. set_solver.
  - (* a mapping is merged into what [d] holds under [k] *)
    rewrite update_item_CDict. unfold update_item_in_place.
    destruct (store_get_repr h l es ts F0 k Hl Hes Hn)
      as (h1 & x & F1 & F2 & -> & Hx & Hd & H2 & H1 & Hlen1 & Hfr1 & Hset).
    cbn [bind fst snd].
    specialize (IHv h1 x _ F1 Hx).
    destruct (update_dict (default (CDict []) (odict_get ts k)) (CDict u'))
      as [m|e]; cbn [bind in_place] in *.
    2:{ rewrite IHv. reflexivity. }
    destruct IHv as (h2 & F1' & -> & Hm & HF1' & Hlen2 & Hfr2).
    cbn [bind fst snd]. unfold store_setitem.
    assert (HlF1 : l ∉ F1).
    { intros Hin. destruct (H1 l Hin) as [? | ?]; [contradiction | lia]. }
    assert (HlF1' : l ∉ F1').
    { intros Hin. destruct (HF1' l Hin) as [? | ?]; [contradiction | lia]. }
    assert (Hl2 : h2 !! l = Some es).
    { rewrite Hfr2 by (try lia; exact HlF1). rewrite Hfr1 by lia. exact Hl. }
    rewrite (items_at_Some _ _ _ Hl2). cbn [bind].
    set (h3 := <[l := odict_set es k x]> h2).
    assert (HF2 : forall l', l' ∈ F2 -> l' < length h /\ l' <> l).
    { intros l' Hl'. split; [apply Hall; set_solver |].
      intros ->. apply Hn. exact (H2 _ Hl'). }
    assert (Hdis : F1' ## F2).
    { intros l' Ha Hb. destruct (HF1' l' Ha) as [Hc | Hc].
      - exact (Hd l' Hc Hb).
      - destruct (HF2 l' Hb). lia. }
    exists h3, ({[l]} ∪ (F1' ∪ F2)).
    split; [reflexivity |]. split.
    { apply (repr_ref h3 l (odict_set es k x) _ (F1' ∪ F2));
        [ apply list_lookup_insert_eq; lia | | | reflexivity ].
      - apply Hset; [| exact Hdis |].
        + apply (proj1 (repr_frame h2) _ _ _ Hm). intros l' Hl'.
          apply list_lookup_insert_ne. intros ->. exact (HlF1' Hl').
        + intros l' Hl'. destruct (HF2 l' Hl') as [Hlt Hne].
          unfold h3. rewrite list_lookup_insert_ne by congruence.
          rewrite Hfr2; [apply Hfr1; exact Hlt | lia |].
          intros Hin. exact (Hd l' Hin Hl').
      - intros Hin. apply elem_of_union in Hin as [Hin | Hin];
          [exact (HlF1' Hin) | exact (Hn (H2 _ Hin))]. }
    split.
    { intros l' Hl'. apply elem_of_union in Hl' as [Hl' | Hl'];
        [left; set_solver |].
      apply elem_of_union in Hl' as [Hl' | Hl'].
      - destruct (HF1' l' Hl') as [Hc | Hc]; [| right; lia].
        destruct (H1 l' Hc) as [? | ?]; [left; set_solver | right; lia].
      - left. apply elem_of_union. right. exact (H2 _ Hl'). }
    split; [unfold h3; rewrite length_insert; lia |].
    intros l' Hlt Hl'. unfold h3.
    rewrite list_lookup_insert_ne by (intros ->; apply Hl'; set_solver).
    rewrite Hfr2; [apply Hfr1; exact Hlt | lia |].
    intros Hin. destruct (H1 l' Hin) as [? | ?]; [| lia].
    apply Hl'. set_solver.
Qed.

(** The loop in place does what the loop on configurations does. *)
Lemma update_items_refines items :
  Forall (fun kv =>
            forall h x t F, repr h x t F ->
              in_place h x F (update_dict t (snd kv))
                (update_dict_in_place h x (snd kv))) items ->
  forall h d t F, repr h d t F ->
    in_place h d F (update_items items t) (update_items_in_place items d h).
Proof.
  induction items as [| [k v] rest IH]; intros HF h d t F Hr.
  - cbn [update_items update_items_in_place in_place].
    exists h, F. split; [reflexivity |]. split; [exact Hr |].
    split; [auto |]. split; [lia | reflexivity].
  - apply Forall_cons in HF as [Hv HF]. cbn [snd] in Hv.
    cbn [update_items update_items_in_place].
    pose proof (update_item_refines k v Hv h d t F Hr) as Hstep.
    destruct (update_item k v t) as [t1|e]; cbn [bind in_place] in *.
    2:{ destruct (update_item_in_place k v d h); cbn [bind] in *;
          [discriminate Hstep | exact Hstep]. }
    destruct Hstep as (h1 & F1 & E1 & Hr1 & HF1 & Hlen1 & Hfr1).
    destruct (update_item_in_place k v d h) as [h1'|]; cbn [bind] in *;
      [| discriminate E1].
    injection E1 as ->.
    specialize (IH HF h1 d t1 F1 Hr1).
    destruct (update_items rest t1) as [t2|e]; cbn [in_place] in *;
      [| exact IH].
    destruct IH as (h2 & F2 & E2 & Hr2 & HF2 & Hlen2 & Hfr2).
    exists h2, F2. split; [exact E2 |]. split; [exact Hr2 |]. split.
    { intros l Hl. destruct (HF2 l Hl) as [Hc | Hc]; [| right; lia].
      destruct (HF1 l Hc) as [? | ?]; auto. }
    split; [lia |].
    intros l Hlt Hl. rewrite Hfr2; [exact (Hfr1 l Hlt Hl) | lia |].
    intros Hin. destruct (HF1 l Hin) as [? | ?]; [contradiction | lia].
Qed.

(** On a configuration none of whose objects is held twice,
    [update_dict] in place does what [update_dict] on configurations
    does. *)
Lemma update_dict_refines u :
  forall h d t F, repr h d t F ->
    in_place h d F (update_dict t u) (update_dict_in_place h d u).
Proof.
  induction u as [v | items IH] using cfg_nested_ind; intros h d t F Hr.
  - reflexivity.
  - rewrite update_dict_CDict, update_dict_in_place_CDict.
    exact (update_items_refines items IH h d t F Hr).
Qed.

(** X8.  [update_dict(d, u)] in place, on a dictionary [d] none of whose
    objects is held twice and data [u] with each key once: it returns [d]
    itself, and [d] then is the merged configuration, in which a key of
    [u] holding a scalar or list has that value, a key of [u] holding a
    mapping has the result of merging that mapping into what [d] held
    there (an empty mapping if nothing), and every other key has what [d]
    held; the objects of the store that [d] was not built from are as they
    were. *)
Theorem update_dict_lookup (h : store) (l : loc) (d : list (string * cfg))
    (F : gset loc) (u : list (string * cfg)) (h' : store) (r : hval) :
  repr h (HRef l) (CDict d) F ->
  NoDup (odict_keys u) ->
  update_dict_in_place h (HRef l) (CDict u) = Ok (h', r) ->
  r = HRef l
  /\ (forall l', l' < length h -> l' ∉ F -> h' !! l' = h !! l')
  /\ exists res F',
       repr h' (HRef l) (CDict res) F'
       /\ update_dict (CDict d) (CDict u) = Ok (CDict res)
       /\ forall k,
            match odict_get u k with
            | None => odict_get res k = odict_get d k
            | Some (CVal v) => odict_get res k = Some (CVal v)
            | Some (CDict u') =>
                exists m,
                  update_dict (default (CDict []) (odict_get d k)) (CDict u')
                  = Ok m
                  /\ odict_get res k = Some m
            end.
Proof.
  intros Hr ND H.
  pose proof (update_dict_refines (CDict u) h (HRef l) (CDict d) F Hr) as R.
  destruct (update_dict (CDict d) (CDict u)) as [t'|e] eqn:E;
    cbn [in_place] in R; [| congruence].
  destruct R as (h2 & F' & E2 & Hr' & _ & _ & Hfr).
  rewrite E2 in H. injection H as <- <-.
  split; [reflexivity |]. split; [exact Hfr |].
  rewrite update_dict_CDict in E.
  destruct (update_items_lookup u ND d t' E) as (res & -> & Hk).
  exists res, F'. auto.
Qed.

(** Where an object is held twice, the merge shows under a key that the
    data does not name: [defaults] and [two_point] are one object, the
    data names [two_point] only, and afterwards [defaults] holds the same
    object, which has gained ["order"]. *)
Lemma update_dict_in_place_shared :
  odict_get shared_update_items "defaults" = None
  /\ exists h',
       update_dict_in_place shared_store (HRef 0) (CDict shared_update_items)
       = Ok (h', HRef 0)
       /\ odict_get (items_at h' 0) "defaults" = Some (HRef 1)
       /\ items_at shared_store 1
          = [("module", HVal (PStr "firecrown.tp"))]
       /\ items_at h' 1
          = [("module", HVal (PStr "firecrown.tp"));
             ("order", HVal (PInt 2))].
Proof. split; [reflexivity |]. eexists. vm_compute. repeat split. Qed.

Lemma update_items_keys items :
  NoDup (odict_keys items) ->
  forall d r,
    update_items items (CDict d) = Ok (CDict r) ->
    odict_keys r
    = odict_keys d ++ filter (fun k => k ∉ odict_keys d) (odict_keys items).
Proof.
  induction items as [| [k0 v0] rest IH]; intros ND d r H.
  - cbn [update_items] in H. injection H as <-.
    cbn. rewrite app_nil_r. reflexivity.
  - unfold odict_keys in ND. cbn [map fst] in ND.
    apply NoDup_cons in ND as [Hk0 ND].
    cbn [update_items] in H.
    destruct (update_item k0 v0 (CDict d)) as [d1|] eqn:E1; cbn [bind] in H;
      [| discriminate].
    apply update_item_Ok in E1 as (m & -> & _).
    rewrite (IH ND _ _ H), odict_keys_set.
    change (odict_keys ((k0, v0) :: rest)) with (k0 :: odict_keys rest).
    destruct (bool_decide (k0 ∈ odict_keys d)) eqn:B.
    + apply bool_decide_eq_true in B.
      rewrite filter_cons_False by (intros Hn; exact (Hn B)). reflexivity.
    + apply bool_decide_eq_false in B.
      rewrite filter_cons_True by exact B.
      rewrite <- app_assoc. cbn [app]. do 2 f_equal.
      clear -Hk0. fold (odict_keys rest) in Hk0.
      induction (odict_keys rest) as [| x l IHl]; [reflexivity |].
      assert (x <> k0) by (intros ->; apply Hk0; left).
      assert (k0 ∉ l) by (intros Hin; apply Hk0; right; exact Hin).
      destruct (decide (x ∈ odict_keys d)) as [Hx | Hx].
      * rewrite !filter_cons_False; [auto | |].
        -- intros Hn. exact (Hn Hx).
        -- intros Hn. apply Hn. apply elem_of_app. left. exact Hx.
      * rewrite !filter_cons_True; [f_equal; auto | exact Hx |].
        intros Hin. apply elem_of_app in Hin as [Hin | Hin];
          [exact (Hx Hin) |].
        apply list_elem_of_singleton in Hin. contradiction.
Qed.

(** X9.  The merge keeps the order of [d]: the keys that [d] had stay
    where they were, and the keys that only [u] has follow them, in the
    order of [u]. *)
Theorem update_dict_keys (d u r : list (string * cfg)) :
  NoDup (odict_keys u) ->
  update_dict (CDict d) (CDict u) = Ok (CDict r) ->
  odict_keys r
  = odict_keys d ++ filter (fun k => k ∉ odict_keys d) (odict_keys u).
Proof.
  intros ND H. rewrite update_dict_CDict in H.
  exact (update_items_keys u ND d r H).
Qed.

Lemma odict_set_fresh {V} (d : odict V) k v :
  k ∉ odict_keys d -> odict_set d k v = d ++ [(k, v)].
Proof.
  unfold odict_keys. induction d as [| [k' v'] d IH]; intros Hk;
    cbn [odict_set app]; [reflexivity |].
  cbn [map fst] in Hk. apply not_elem_of_cons in Hk as [Hne Hk].
  destruct (String.eqb k' k) eqn:E.
  - apply String.eqb_eq in E. congruence.
  - rewrite (IH Hk). reflexivity.
Qed.

Lemma update_item_scalar k v c :
  exists e, update_item k v (CVal c) = Raise e
    /\ (e = AttributeError "get"
        \/ e = TypeError "object does not support item assignment").
Proof. destruct v; eexists; (split; [reflexivity | auto]). Qed.

Lemma update_items_fresh items :
  Forall (fun kv => forall l, snd kv = CDict l -> unique_keys (snd kv) ->
                    update_dict (CDict []) (snd kv) = Ok (snd kv)) items ->
  Forall (fun kv => unique_keys (snd kv)) items ->
  NoDup (odict_keys items) ->
  forall d,
    (forall k, k ∈ odict_keys items -> k ∉ odict_keys d) ->
    update_items items (CDict d) = Ok (CDict (d ++ items)).
Proof.
  unfold odict_keys at 1 2.
  induction items as [| [k0 v0] rest IH]; intros HP HU ND d Hfresh.
  - cbn [update_items]. rewrite app_nil_r. reflexivity.
  - apply Forall_cons in HP as [HP0 HP]. apply Forall_cons in HU as [HU0 HU].
    cbn [snd] in HP0, HU0.
    cbn [map fst] in ND. apply NoDup_cons in ND as [Hk0 ND].
    assert (Hd : k0 ∉ odict_keys d) by (apply Hfresh; left).
    cbn [update_items].
    assert (E : update_item k0 v0 (CDict d) = Ok (CDict (d ++ [(k0, v0)]))).
    { destruct v0 as [v | u'].
      - rewrite update_item_CVal, (odict_set_fresh _ _ _ Hd). reflexivity.
      - rewrite update_item_CDict.
        rewrite (proj2 (odict_get_None d k0) Hd). cbn [default].
        rewrite (HP0 u' eq_refl HU0). cbn [bind].
        rewrite (odict_set_fresh _ _ _ Hd). reflexivity. }
    rewrite E. cbn [bind]. rewrite (IH HP HU ND).
    + rewrite <- app_assoc. reflexivity.
    + intros k Hk. unfold odict_keys. rewrite map_app.
      intros Hin. apply elem_of_app in Hin as [Hin | Hin].
      * revert Hin. apply Hfresh. right. exact Hk.
      * cbn in Hin. apply list_elem_of_singleton in Hin. subst k.
        exact (Hk0 Hk).
Qed.

(** X10.  Merging a mapping with each key once at every level into an
    empty mapping gives that mapping back, values and order. *)
Theorem update_dict_into_empty (u : cfg) (items : list (string * cfg)) :
  u = CDict items ->
  unique_keys u ->
  update_dict (CDict []) u = Ok u.
Proof.
  revert items. induction u as [v | l IH] using cfg_nested_ind;
    intros items Hu HU; [discriminate |].
  apply unique_keys_CDict in HU as [ND HU].
  rewrite update_dict_CDict.
  rewrite (update_items_fresh l IH HU ND []); [reflexivity |].
  intros k _ Hin. apply elem_of_nil in Hin. exact Hin.
Qed.

Lemma update_items_stable (r0 : list (string * cfg)) items :
  Forall (fun kv =>
            match snd kv with
            | CVal _ => odict_get r0 (fst kv) = Some (snd kv)
            | CDict _ =>
                exists m, odict_get r0 (fst kv) = Some m
                  /\ update_dict m (snd kv) = Ok m
            end) items ->
  update_items items (CDict r0) = Ok (CDict r0).
Proof.
  induction items as [| [k v] rest IH]; intros H; [reflexivity |].
  apply Forall_cons in H as [H0 H]. cbn [fst snd] in H0.
  cbn [update_items].
  assert (E : update_item k v (CDict r0) = Ok (CDict r0)).
  { destruct v as [v | u'].
    - rewrite update_item_CVal, (odict_set_id _ _ _ H0). reflexivity.
    - destruct H0 as (m & Hm & Hup).
      rewrite update_item_CDict, Hm.
      change (default (CDict []) (Some m)) with m. rewrite Hup.
      cbn [bind]. rewrite (odict_set_id _ _ _ Hm). reflexivity. }
  rewrite E. cbn [bind]. exact (IH H).
Qed.

(** X11.  Merging the same data a second time changes nothing: if
    [update_dict(d, u)] returns [r] then [update_dict(r, u)] returns [r],
    for [u] with each key once at every level. *)
Theorem update_dict_idempotent (d u r : cfg) :
  unique_keys u ->
  update_dict d u = Ok r ->
  update_dict r u = Ok r.
Proof.
  revert d r. induction u as [v | items IH] using cfg_nested_ind;
    intros d r HU H; [discriminate |].
  apply unique_keys_CDict in HU as [ND HU].
  rewrite update_dict_CDict in *.
  destruct d as [c | d0].
  - destruct items as [| [k v] rest].
    + cbn [update_items] in H. injection H as <-. reflexivity.
    + cbn [update_items] in H.
      destruct (update_item_scalar k v c) as (e & E & _).
      rewrite E in H. discriminate H.
  - destruct (update_items_lookup items ND d0 r H) as (r0 & -> & Hr).
    apply update_items_stable.
    apply Forall_forall. intros [k v] Hin. cbn [fst snd].
    specialize (Hr k). rewrite (odict_get_elem _ _ _ ND Hin) in Hr.
    rewrite Forall_forall in IH, HU.
    destruct v as [v | u']; [exact Hr |].
    destruct Hr as (m & Hup & Hm). exists m. split; [exact Hm |].
    exact (IH _ Hin _ _ (HU _ Hin) Hup).
Qed.

Lemma update_dict_Raise_kinds (u : cfg) :
  forall d e,
    update_dict d u = Raise e ->
    match u with
    | CVal _ => e = AttributeError "items"
    | CDict _ =>
        e = AttributeError "get"
        \/ e = TypeError "object does not support item assignment"
    end.
Proof.
  induction u as [v | items IH] using cfg_nested_ind; intros d e H.
  - cbn [update_dict] in H. congruence.
  - rewrite update_dict_CDict in H. revert d H.
    induction items as [| [k v] rest IHr]; intros d H; [discriminate |].
    apply Forall_cons in IH as [IH0 IH]. cbn [snd] in IH0.
    cbn [update_items] in H.
    destruct (update_item k v d) as [d1|e1] eqn:E1; cbn [bind] in H.
    + exact (IHr IH d1 H).
    + injection H as <-. unfold update_item in E1.
      destruct v as [v | u']; cbn [is_mapping] in E1.
      * destruct d; cbn [cfg_setitem] in E1; [| discriminate].
        injection E1 as <-. auto.
      * destruct d as [c | d0]; cbn [cfg_get bind] in E1;
          [injection E1 as <-; auto |].
        destruct (update_dict _ (CDict u')) as [m|e2] eqn:E2;
          cbn [bind cfg_setitem] in E1; [discriminate |].
        injection E1 as <-. exact (IH0 _ _ E2).
Qed.

(** X12.  Where [d] holds a scalar or list under a key and [u] holds a
    mapping with at least one item under the same key, the merge fails,
    with the [AttributeError] of [get] or the [TypeError] of item
    assignment; where [u] holds an empty mapping under the key and the
    merge returns, what [d] held there is kept. *)
Theorem update_dict_scalar_conflict (d u : list (string * cfg)) (k : string) :
  NoDup (odict_keys u) ->
  (forall c kv u',
     odict_get d k = Some (CVal c) ->
     (k, CDict (kv :: u')) ∈ u ->
     exists e, update_dict (CDict d) (CDict u) = Raise e
       /\ (e = AttributeError "get"
           \/ e = TypeError "object does not support item assignment"))
  /\ (forall x r,
        odict_get d k = Some x ->
        (k, CDict []) ∈ u ->
        update_dict (CDict d) (CDict u) = Ok (CDict r) ->
        odict_get r k = Some x).
Proof.
  intros ND. split.
  - intros c [k1 v1] u' Hd Hin.
    destruct (update_dict (CDict d) (CDict u)) as [res|e] eqn:E.
    + exfalso. rewrite update_dict_CDict in E.
      apply (update_items_lookup u ND d res) in E as (r & _ & Hr).
      specialize (Hr k). rewrite (odict_get_elem _ _ _ ND Hin), Hd in Hr.
      destruct Hr as (m & Hm & _).
      change (default (CDict []) (Some (CVal c))) with (CVal c) in Hm.
      rewrite update_dict_CDict in Hm. cbn [update_items] in Hm.
      destruct (update_item_scalar k1 v1 c) as (e & E & _).
      rewrite E in Hm. discriminate Hm.
    + exists e. split; [reflexivity |].
      exact (update_dict_Raise_kinds (CDict u) _ _ E).
  - intros x r Hd Hin E. rewrite update_dict_CDict in E.
    apply (update_items_lookup u ND d _) in E as (r' & [= <-] & Hr).
    specialize (Hr k). rewrite (odict_get_elem _ _ _ ND Hin), Hd in Hr.
    destruct Hr as (m & Hm & Hk).
    change (default (CDict []) (Some x)) with x in Hm.
    rewrite update_dict_CDict in Hm. cbn [update_items] in Hm.
    injection Hm as <-. exact Hk.
Qed.

Lemma example_merge :
  update_dict (CDict config_items) (CDict memory_items)
  = Ok (CDict merged_items).
Proof. vm_compute. reflexivity. Qed.

Lemma memory_items_NoDup : NoDup (odict_keys memory_items).
Proof.
  apply (bool_decide_unpack _). vm_compute. exact I.
Qed.

Lemma memory_items_unique : unique_keys (CDict memory_items).
Proof.
  apply unique_keys_CDict. split; [exact memory_items_NoDup |].
  repeat constructor; cbn;
    try (apply (bool_decide_unpack _); vm_compute; exact I).
Qed.

Lemma config_store_repr :
  repr config_store (HRef 0) (CDict config_items) {[0; 1; 2]}.
Proof.
  eapply (repr_ref _ 0 _ _ {[1; 2]});
    [reflexivity | | set_solver | set_solver].
  apply (reprs_cons _ _ _ _ _ _ {[1]} {[2]}); [| | set_solver | set_solver].
  - eapply (repr_ref _ 1 _ _ ∅); [reflexivity | | set_solver | set_solver].
    apply (reprs_cons _ _ _ _ _ _ ∅ ∅); [| | set_solver | set_solver].
    + apply repr_val. reflexivity.
    + apply (reprs_cons _ _ _ _ _ _ ∅ ∅); [| | set_solver | set_solver].
      * apply repr_val. reflexivity.
      * apply reprs_nil. reflexivity.
  - apply (reprs_cons _ _ _ _ _ _ {[2]} ∅); [| | set_solver | set_solver].
    + eapply (repr_ref _ 2 _ _ ∅); [reflexivity | | set_solver | set_solver].
      apply (reprs_cons _ _ _ _ _ _ ∅ ∅); [| | set_solver | set_solver].
      * apply repr_val. reflexivity.
      * apply reprs_nil. reflexivity.
    + apply reprs_nil. reflexivity.
Qed.

Lemma update_dict_lookup_witness :
  exists h' F',
    update_dict_in_place config_store (HRef 0) (CDict memory_items)
    = Ok (h', HRef 0)
    /\ repr h' (HRef 0) (CDict merged_items) F'
    /\ h' !! 0 = Some [("parameters", HRef 1); ("two_point", HRef 2);
                       ("emcee", HRef 3)].
Proof.
  destruct (update_dict_in_place config_store (HRef 0) (CDict memory_items))
    as [[h' r]|e] eqn:E; [| vm_compute in E; discriminate E].
  destruct (update_dict_lookup _ _ _ _ _ _ _ config_store_repr
              memory_items_NoDup E)
    as (-> & _ & res & F' & Hr & Hu & _).
  rewrite example_merge in Hu. injection Hu as <-.
  exists h', F'. split; [reflexivity |]. split; [exact Hr |].
  vm_compute in E. injection E as <-. reflexivity.
Defined.

Lemma update_dict_keys_witness :
  odict_keys merged_items
  = odict_keys config_items
    ++ filter (fun k => k ∉ odict_keys config_items)
         (odict_keys memory_items).
Proof.
  exact (update_dict_keys config_items memory_items merged_items
           memory_items_NoDup example_merge).
Defined.

Lemma update_dict_into_empty_witness :
  update_dict (CDict []) (CDict memory_items) = Ok (CDict memory_items).
Proof.
  exact (update_dict_into_empty (CDict memory_items) memory_items eq_refl
           memory_items_unique).
Defined.

Lemma update_dict_idempotent_witness :
  update_dict (CDict merged_items) (CDict memory_items)
  = Ok (CDict merged_items).
Proof.
  exact (update_dict_idempotent (CDict config_items) (CDict memory_items)
           (CDict merged_items) memory_items_unique example_merge).
Defined.

Lemma update_dict_scalar_conflict_witness :
  exists e,
    update_dict (CDict [("module", CVal (PStr "firecrown.tp"))])
      (CDict [("module", CDict [("name", CVal (PStr "tp"))])])
    = Raise e
    /\ (e = AttributeError "get"
        \/ e = TypeError "object does not support item assignment").
Proof.
  destruct (update_dict_scalar_conflict
              [("module", CVal (PStr "firecrown.tp"))]
              [("module", CDict [("name", CVal (PStr "tp"))])] "module")
    as [H _].
  - apply (bool_decide_unpack _). vm_compute. exact I.
  - apply (H (PStr "firecrown.tp") ("name", CVal (PStr "tp")) []);
      [reflexivity | left].
Defined.

(** ** The Student-t likelihood with an unchecked shape parameter *)

Section StudentT_unchecked.
Context {GaussFamily Cosmology : Type}.
Variable np_log : float -> float.
Variable compute_chisq :
  StudentT.StudentT GaussFamily -> Cosmology -> gmap string pyval
  -> result pyval.

(** X13.  [compute_loglike] on an object whose shape parameter makes
    [nu - 1.0] zero, such as [1], [1.0] or [True]: once [compute_chisq]
    has returned a number, the division raises [ZeroDivisionError]. *)
Theorem compute_loglike_zero_denominator
    (self : StudentT.StudentT GaussFamily) cosmo params chi2 v c :
  py_float (StudentT.nu self) = Ok v ->
  (v - 1 =? 0)%float = true ->
  compute_chisq self cosmo params = Ok chi2 ->
  py_float chi2 = Ok c ->
  StudentT.compute_loglike np_log compute_chisq self cosmo params
  = Raise (ZeroDivisionError "float division by zero").
Proof.
  intros Hv Hz Hchi Hc. unfold StudentT.compute_loglike.
  rewrite Hchi. cbn [bind].
  rewrite (py_mul_float_l _ _ _ Hv). cbn [bind].
  rewrite (py_sub_float_r _ _ _ Hv). cbn [bind].
  rewrite (py_truediv_float_r _ _ _ Hc), Hz. reflexivity.
Qed.

(** X14.  A shape parameter that is not a number ([None], a string, a
    list) is met only in [compute_loglike]: once [compute_chisq] has
    returned, the product [-0.5 * nu] raises a [TypeError]. *)
Theorem compute_loglike_nu_not_number
    (self : StudentT.StudentT GaussFamily) cosmo params chi2 :
  as_num (StudentT.nu self) = None ->
  compute_chisq self cosmo params = Ok chi2 ->
  StudentT.compute_loglike np_log compute_chisq self cosmo params
  = Raise (operand_error "*").
Proof.
  intros Hnu Hchi. unfold StudentT.compute_loglike.
  rewrite Hchi. cbn [bind]. unfold py_mul. rewrite Hnu. reflexivity.
Qed.

End StudentT_unchecked.

Lemma compute_loglike_zero_denominator_witness :
  StudentT.compute_loglike StudentT.example_log StudentT.example_chisq
    {| StudentT.base := [tt]; StudentT.nu := PInt 1 |} tt ∅
  = Raise (ZeroDivisionError "float division by zero").
Proof.
  apply (compute_loglike_zero_denominator StudentT.example_log
           StudentT.example_chisq _ tt ∅ (PFloat 2) 1 2); reflexivity.
Defined.

Lemma compute_loglike_nu_not_number_witness :
  StudentT.compute_loglike StudentT.example_log StudentT.example_chisq
    {| StudentT.base := [tt]; StudentT.nu := PNone |} tt ∅
  = Raise (operand_error "*").
Proof.
  apply (compute_loglike_nu_not_number StudentT.example_log
           StudentT.example_chisq _ tt ∅ (PFloat 2)); reflexivity.
Defined.

(** ** The conversion to oracle parameters *)

Lemma getattr_Ok_inv cb k v : getattr cb k = Ok v -> cb !! k = Some v.
Proof. unfold getattr. destruct (cb !! k); congruence. Qed.

Lemma getattr_Raise_inv cb k e :
  getattr cb k = Raise e -> cb !! k = None /\ e = AttributeError k.
Proof.
  unfold getattr. destruct (cb !! k); [discriminate |]. intros [= <-]. auto.
Qed.

(** Reading an amplitude: the attribute if the key is there, [0.0]
    otherwise. *)
Lemma amplitude_read cb k :
  (if contains cb k then getattr cb k else Ok (PFloat 0))
  = Ok (dict_get cb k (PFloat 0)).
Proof.
  unfold contains, contains_key, getattr, dict_get.
  destruct (cb !! k); reflexivity.
Qed.

Lemma amplitude_branch_Ok oc ob ok w wa h0 ns s a p :
  amplitude_branch oc ob ok w wa h0 ns s a = Ok p ->
  p = {| ccl_Omega_c := oc; ccl_Omega_b := ob; ccl_Omega_k := ok;
         ccl_w0 := w; ccl_wa := wa;
         ccl_sigma8 := if truthy s then Some s else None;
         ccl_A_s := if truthy s then None else Some a;
         ccl_n_s := ns; ccl_h := h0 |}
  /\ truthy s = negb (truthy a).
Proof.
  unfold amplitude_branch.
  destruct (truthy s), (truthy a); cbn [andb]; try discriminate;
    intros [= <-]; auto.
Qed.

(** X15.  Oracle parameters, when the conversion returns them, hold the
    attributes [omega_c], [omega_b], [omega_k], [w0], [wa], [h], [n_s]
    unchanged ([wa] with its sign as it is) and exactly one amplitude:
    the truthy one of [sigma_8] and [a_s], the other being absent or
    falsy. *)
Theorem convert_cosmobase_to_ccl_Ok (cb : gmap string pyval)
    (p : CCLParameters) :
  convert_cosmobase_to_ccl cb = Ok p ->
  cb !! "omega_c" = Some (ccl_Omega_c p)
  /\ cb !! "omega_b" = Some (ccl_Omega_b p)
  /\ cb !! "omega_k" = Some (ccl_Omega_k p)
  /\ cb !! "w0" = Some (ccl_w0 p) /\ cb !! "wa" = Some (ccl_wa p)
  /\ cb !! "h" = Some (ccl_h p) /\ cb !! "n_s" = Some (ccl_n_s p)
  /\ ((exists s, cb !! "sigma_8" = Some s /\ truthy s = true
         /\ ccl_sigma8 p = Some s /\ ccl_A_s p = None
         /\ truthy (dict_get cb "a_s" (PFloat 0)) = false)
      \/ (exists a, cb !! "a_s" = Some a /\ truthy a = true
            /\ ccl_A_s p = Some a /\ ccl_sigma8 p = None
            /\ truthy (dict_get cb "sigma_8" (PFloat 0)) = false)).
Proof.
  unfold convert_cosmobase_to_ccl. rewrite !amplitude_read. intros H.
  repeat (apply bind_Ok in H as (? & ? & H)).
  destruct (truthy _) eqn:Hn in H; [discriminate |].
  repeat (apply bind_Ok in H as (? & ? & H)).
  repeat match goal with
  | E : getattr _ _ = Ok _ |- _ => apply getattr_Ok_inv in E
  | E : Ok _ = Ok _ |- _ => injection E as <-
  end.
  apply amplitude_branch_Ok in H as [-> Hx]. cbn.
  repeat (split; [assumption |]).
  assert (Hf : truthy (PFloat 0) = false) by reflexivity.
  unfold dict_get in *.
  destruct (truthy (match cb !! "sigma_8" with
                    | Some v => v | None => PFloat 0 end)) eqn:Hs.
  - left. destruct (cb !! "sigma_8") as [s|] eqn:Es;
      [| rewrite Hf in Hs; discriminate].
    exists s. repeat split; try assumption.
    apply negb_true_iff. symmetry. exact Hx.
  - right. symmetry in Hx. apply negb_false_iff in Hx.
    destruct (cb !! "a_s") as [a|] eqn:Ea;
      [| rewrite Hf in Hx; discriminate].
    exists a. repeat split; assumption.
Qed.

Lemma convert_cosmobase_to_ccl_Ok_witness :
  exists p,
    convert_cosmobase_to_ccl (<["sigma_8" := PFloat 0.8]> zero_sigma8_base)
    = Ok p
    /\ ccl_sigma8 p = Some (PFloat 0.8) /\ ccl_A_s p = None
    /\ ccl_wa p = PFloat 0.
Proof.
  destruct (convert_cosmobase_to_ccl
              (<["sigma_8" := PFloat 0.8]> zero_sigma8_base))
    as [p|e] eqn:E.
  - exists p. split; [reflexivity |].
    destruct (convert_cosmobase_to_ccl_Ok _ p E)
      as (_ & _ & _ & _ & Hwa & _ & _ & [(s & Hs & _ & H1 & H2 & _)
                                         | (a & Ha & _)]).
    + assert (Es : <["sigma_8" := PFloat 0.8]> zero_sigma8_base !! "sigma_8"
                   = Some (PFloat 0.8)) by reflexivity.
      assert (Ew : <["sigma_8" := PFloat 0.8]> zero_sigma8_base !! "wa"
                   = Some (PFloat 0)) by reflexivity.
      rewrite Es in Hs. injection Hs as <-.
      rewrite Ew in Hwa. injection Hwa as <-. auto.
    + assert (Ea : <["sigma_8" := PFloat 0.8]> zero_sigma8_base !! "a_s"
                   = None) by reflexivity.
      rewrite Ea in Ha. discriminate Ha.
  - vm_compute in E. discriminate E.
Defined.

(** X16.  A truthy sum [omega_n_rel + omega_n_mass] stops the conversion
    with "cosmo_base doesn't handle massive neutrinos yet" as soon as the
    three density attributes are there: neither the remaining attributes
    nor the amplitudes are looked at. *)
Theorem convert_massive_neutrinos (cb : gmap string pyval)
    (oc ob ok nr nm nsum : pyval) :
  cb !! "omega_c" = Some oc -> cb !! "omega_b" = Some ob ->
  cb !! "omega_k" = Some ok ->
  cb !! "omega_n_rel" = Some nr -> cb !! "omega_n_mass" = Some nm ->
  py_add nr nm = Ok nsum -> truthy nsum = true ->
  convert_cosmobase_to_ccl cb = Raise massive_neutrino_error.
Proof.
  intros Hoc Hob Hok Hnr Hnm Hsum Ht. unfold convert_cosmobase_to_ccl.
  rewrite (getattr_Some _ _ _ Hoc), (getattr_Some _ _ _ Hob),
    (getattr_Some _ _ _ Hok), (getattr_Some _ _ _ Hnr),
    (getattr_Some _ _ _ Hnm). cbn [bind].
  rewrite Hsum. cbn [bind]. rewrite Ht. reflexivity.
Qed.

Lemma convert_massive_neutrinos_witness :
  convert_cosmobase_to_ccl
    (<["omega_n_mass" := PFloat 0.001]> (delete "n_s" zero_sigma8_base))
  = Raise massive_neutrino_error.
Proof.
  apply (convert_massive_neutrinos _ (PFloat 0.25) (PFloat 0.05) (PFloat 0)
           (PFloat 0) (PFloat 0.001) (PFloat (0 + 0.001))); reflexivity.
Defined.

(** X17.  With every attribute read, a zero neutrino sum, and [sigma_8]
    and [a_s] both present and truthy, the conversion raises "Specifying
    both sigma8 and A_s: pick one". *)
Theorem convert_both_amplitudes (cb : gmap string pyval)
    (oc ob ok nr nm nsum w wa h0 ns s a : pyval) :
  cb !! "omega_c" = Some oc -> cb !! "omega_b" = Some ob ->
  cb !! "omega_k" = Some ok ->
  cb !! "omega_n_rel" = Some nr -> cb !! "omega_n_mass" = Some nm ->
  py_add nr nm = Ok nsum -> truthy nsum = false ->
  cb !! "w0" = Some w -> cb !! "wa" = Some wa ->
  cb !! "h" = Some h0 -> cb !! "n_s" = Some ns ->
  cb !! "sigma_8" = Some s -> truthy s = true ->
  cb !! "a_s" = Some a -> truthy a = true ->
  convert_cosmobase_to_ccl cb = Raise both_amplitudes_error.
Proof.
  intros Hoc Hob Hok Hnr Hnm Hsum Hf Hw Hwa Hh Hns Hs Hts Ha Hta.
  unfold convert_cosmobase_to_ccl.
  rewrite (getattr_Some _ _ _ Hoc), (getattr_Some _ _ _ Hob),
    (getattr_Some _ _ _ Hok), (getattr_Some _ _ _ Hnr),
    (getattr_Some _ _ _ Hnm). cbn [bind].
  rewrite Hsum. cbn [bind]. rewrite Hf.
  rewrite (getattr_Some _ _ _ Hw), (getattr_Some _ _ _ Hwa),
    (getattr_Some _ _ _ Hh), (getattr_Some _ _ _ Hns),
    (contains_Some _ _ _ Hs), (getattr_Some _ _ _ Hs),
    (contains_Some _ _ _ Ha), (getattr_Some _ _ _ Ha). cbn [bind].
  unfold amplitude_branch. rewrite Hts, Hta. reflexivity.
Qed.

Lemma convert_both_amplitudes_witness :
  convert_cosmobase_to_ccl
    (<["a_s" := PFloat 2.1e-9]>
       (<["sigma_8" := PFloat 0.8]> zero_sigma8_base))
  = Raise both_amplitudes_error.
Proof.
  apply (convert_both_amplitudes _ (PFloat 0.25) (PFloat 0.05) (PFloat 0)
           (PFloat 0) (PFloat 0) (PFloat 0) (PFloat (-1)) (PFloat 0)
           (PFloat 0.7) (PFloat 0.96) (PFloat 0.8) (PFloat 2.1e-9));
    reflexivity.
Defined.



(** ** The table of systematics *)

Lemma odict_set_NoDup {V} (d : odict V) k v :
  NoDup (odict_keys d) -> NoDup (odict_keys (odict_set d k v)).
Proof.
  intros ND. rewrite odict_keys_set.
  destruct (bool_decide (k ∈ odict_keys d)) eqn:B; [exact ND |].
  apply bool_decide_eq_false in B.
  apply NoDup_app. split; [exact ND |]. split.
  - intros x Hx Hin. apply list_elem_of_singleton in Hin. subst x.
    exact (B Hx).
  - apply NoDup_singleton.
Qed.

Lemma odict_get_select {V} (f : V -> bool) (d : odict V) k v :
  NoDup (odict_keys d) ->
  odict_get (select f d) k = Some v <->
  odict_get d k = Some v /\ f v = true.
Proof.
  unfold select, odict_keys, odict in *.
  induction d as [| [k0 v0] d IH]; intros ND.
  - cbn. split; [discriminate | intros [H _]; discriminate H].
  - cbn [map fst] in ND. apply NoDup_cons in ND as [Hk0 ND].
    specialize (IH ND). cbn [odict_get].
    destruct (f v0) eqn:Ef.
    + rewrite filter_cons_True by exact Ef. cbn [odict_get].
      destruct (String.eqb k0 k); [| exact IH].
      split; [intros [= <-]; auto | intros [H _]; exact H].
    + rewrite filter_cons_False by (cbn [snd]; congruence).
      destruct (String.eqb k0 k) eqn:E; [| exact IH].
      apply String.eqb_eq in E as ->. rewrite IH. split.
      * intros [H _]. apply odict_get_Some_elem in H.
        exfalso. apply Hk0. apply list_elem_of_fmap. exists (k, v). auto.
      * intros [[= ->] H]. congruence.
Qed.

Section Systematics_properties.
Context {Systematic Info Metadata SourceBody : Type}.
Variables isinstance_OutputSystematic isinstance_CosmologySystematic
          isinstance_SourceSystematic : Systematic -> bool.
Variable from_info : Info -> result Systematic.

Implicit Types (self : Calculator Systematic Metadata SourceBody).

Lemma build_systematics_NoDup items :
  forall table0 table,
    build_systematics from_info items table0 = Ok table ->
    NoDup (odict_keys table0) -> NoDup (odict_keys table).
Proof.
  induction items as [| [n info] rest IH]; intros table0 table H ND.
  - cbn [build_systematics] in H. injection H as <-. exact ND.
  - cbn [build_systematics] in H.
    destruct (from_info info) as [sys|]; cbn [bind] in H; [| discriminate].
    apply (IH _ _ H). apply odict_set_NoDup. exact ND.
Qed.

Lemma build_systematics_Ok items :
  NoDup (odict_keys items) ->
  forall table0 table,
    build_systematics from_info items table0 = Ok table ->
    (forall k, k ∈ odict_keys items -> k ∉ odict_keys table0) ->
    exists built,
      table = table0 ++ built
      /\ Forall2 (fun item entry =>
                    fst item = fst entry
                    /\ from_info (snd item) = Ok (snd entry)) items built.
Proof.
  unfold odict_keys at 1.
  induction items as [| [n info] rest IH]; intros ND table0 table H Hfresh.
  - cbn [build_systematics] in H. injection H as <-. exists [].
    rewrite app_nil_r. split; [reflexivity | constructor].
  - cbn [map fst] in ND. apply NoDup_cons in ND as [Hn ND].
    cbn [build_systematics] in H.
    destruct (from_info info) as [sys|] eqn:Ei; cbn [bind] in H;
      [| discriminate].
    rewrite odict_set_fresh in H by (apply Hfresh; left).
    destruct (IH ND _ _ H) as (built & -> & HF).
    + intros k Hk. unfold odict_keys. rewrite map_app.
      intros Hin. apply elem_of_app in Hin as [Hin | Hin].
      * revert Hin. apply Hfresh. right. exact Hk.
      * cbn in Hin. apply list_elem_of_singleton in Hin. subst k.
        exact (Hn Hk).
    + exists ((n, sys) :: built). rewrite <- app_assoc.
      split; [reflexivity |]. constructor; [auto | exact HF].
Qed.

Lemma build_systematics_Raise items :
  forall table0 e,
    build_systematics from_info items table0 = Raise e ->
    exists n info, (n, info) ∈ items /\ from_info info = Raise e.
Proof.
  induction items as [| [n info] rest IH]; intros table0 e H.
  - discriminate.
  - cbn [build_systematics] in H.
    destruct (from_info info) as [sys|e0] eqn:Ei; cbn [bind] in H.
    + destruct (IH _ _ H) as (n' & info' & Hin & Hf).
      exists n', info'. split; [right; exact Hin | exact Hf].
    + injection H as <-. exists n, info. split; [left | exact Ei].
Qed.

(** X19.  [setup_systematics] builds the table entry by entry: for a
    configuration with each name once, the table has the same names in
    the same order, each with the object that [Systematic.from_info]
    made of its entry; the metadata and the sources are not touched. *)
Theorem setup_systematics_table self (sys_config : odict Info) self' :
  NoDup (odict_keys sys_config) ->
  setup_systematics isinstance_OutputSystematic
    isinstance_CosmologySystematic isinstance_SourceSystematic from_info
    self sys_config = Ok self' ->
  Forall2 (fun item entry =>
             fst item = fst entry /\ from_info (snd item) = Ok (snd entry))
    sys_config (systematics self')
  /\ odict_keys (systematics self') = odict_keys sys_config
  /\ metadata self' = metadata self
  /\ sources self' = sources self.
Proof.
  intros ND H. unfold setup_systematics in H.
  destruct (build_systematics from_info sys_config []) as [table|] eqn:E;
    cbn [bind] in H; [| discriminate].
  injection H as <-. cbn [systematics metadata sources].
  destruct (build_systematics_Ok _ ND _ _ E) as (built & -> & HF).
  { intros k _ Hin. apply elem_of_nil in Hin. exact Hin. }
  cbn [app]. split; [exact HF |]. split; [| split; reflexivity].
  clear -HF. unfold odict_keys.
  induction HF as [| [n i] [n' s] l k [Hn _] _ IH]; [reflexivity |].
  cbn in *. congruence.
Qed.

(** X20.  After [setup_systematics] the three buckets are views of the
    table: a name is in the output (cosmology, source) bucket, with an
    object, exactly when the table holds that object under the name and
    the object is an instance of the bucket's class; an object of two of
    the classes is in both buckets, one of none is in none. *)
Theorem setup_systematics_buckets self (sys_config : odict Info) self' :
  setup_systematics isinstance_OutputSystematic
    isinstance_CosmologySystematic isinstance_SourceSystematic from_info
    self sys_config = Ok self' ->
  NoDup (odict_keys (systematics self'))
  /\ forall name sys,
       (odict_get (output_systematics self') name = Some sys <->
        odict_get (systematics self') name = Some sys
        /\ isinstance_OutputSystematic sys = true)
       /\ (odict_get (cosmology_systematics self') name = Some sys <->
           odict_get (systematics self') name = Some sys
           /\ isinstance_CosmologySystematic sys = true)
       /\ (odict_get (source_systematics self') name = Some sys <->
           odict_get (systematics self') name = Some sys
           /\ isinstance_SourceSystematic sys = true).
Proof.
  intros H. unfold setup_systematics in H.
  destruct (build_systematics from_info sys_config []) as [table|] eqn:E;
    cbn [bind] in H; [| discriminate].
  injection H as <-.
  cbn [systematics output_systematics cosmology_systematics
       source_systematics].
  assert (ND : NoDup (odict_keys table)).
  { apply (build_systematics_NoDup _ _ _ E). constructor. }
  split; [exact ND |]. intros name sys.
  split; [| split]; apply odict_get_select; exact ND.
Qed.

(** When [from_info] accepts every entry, [setup_systematics] returns. *)
Lemma setup_systematics_accepted self (sys_config : odict Info) :
  (forall name info, (name, info) ∈ sys_config ->
     exists sys, from_info info = Ok sys) ->
  exists self',
    setup_systematics isinstance_OutputSystematic
      isinstance_CosmologySystematic isinstance_SourceSystematic
      from_info self sys_config = Ok self'.
Proof.
  intros Hall. unfold setup_systematics.
  destruct (build_systematics from_info sys_config []) as [table|e0] eqn:E;
    cbn [bind]; [eauto |].
  exfalso.
  destruct (build_systematics_Raise _ _ _ E) as (n & info & Hin & Hf).
  destruct (Hall n info Hin) as [sys Hs]. congruence.
Qed.

(** X21.  [setup_systematics] fails exactly when [Systematic.from_info]
    fails on some entry, and then with an error that [from_info] raised
    on an entry; when every entry is accepted it returns. *)
Theorem setup_systematics_failure self (sys_config : odict Info) :
  (forall e,
     setup_systematics isinstance_OutputSystematic
       isinstance_CosmologySystematic isinstance_SourceSystematic from_info
       self sys_config = Raise e ->
     exists name info, (name, info) ∈ sys_config
       /\ from_info info = Raise e)
  /\ ((forall name info, (name, info) ∈ sys_config ->
         exists sys, from_info info = Ok sys) ->
      exists self',
        setup_systematics isinstance_OutputSystematic
          isinstance_CosmologySystematic isinstance_SourceSystematic
          from_info self sys_config = Ok self').
Proof.
  unfold setup_systematics.
  destruct (build_systematics from_info sys_config []) as [table|e0] eqn:E;
    cbn [bind].
  - split; [discriminate | eauto].
  - split.
    + intros e [= <-]. exact (build_systematics_Raise _ _ _ E).
    + intros Hall. exfalso.
      destruct (build_systematics_Raise _ _ _ E) as (n & info & Hin & Hf).
      destruct (Hall n info Hin) as [sys Hs]. congruence.
Qed.

End Systematics_properties.

Lemma example_setup_systematics :
  setup_systematics (example_is "OutputSystematic")
    (example_is "CosmologySystematic") (example_is "SourceSystematic")
    example_from_info example_calculator example_table
  = Ok example_calculator.
Proof. vm_compute. reflexivity. Qed.

Lemma setup_systematics_table_witness :
  Forall2 (fun item entry =>
             fst item = fst entry
             /\ example_from_info (snd item) = Ok (snd entry))
    example_table (systematics example_calculator)
  /\ odict_keys (systematics example_calculator) = odict_keys example_table
  /\ metadata example_calculator = metadata example_calculator
  /\ sources example_calculator = sources example_calculator.
Proof.
  apply (setup_systematics_table (example_is "OutputSystematic")
           (example_is "CosmologySystematic")
           (example_is "SourceSystematic") example_from_info
           example_calculator example_table example_calculator).
  - apply (bool_decide_unpack _). vm_compute. exact I.
  - exact example_setup_systematics.
Defined.

Lemma setup_systematics_buckets_witness :
  odict_get (source_systematics example_calculator) "bias"
  = Some "SourceSystematic"
  /\ odict_get (source_systematics example_calculator) "noise" = None.
Proof.
  destruct (setup_systematics_buckets (example_is "OutputSystematic")
              (example_is "CosmologySystematic")
              (example_is "SourceSystematic") example_from_info
              example_calculator example_table example_calculator
              example_setup_systematics) as [_ H].
  split.
  - apply (H "bias" "SourceSystematic"). split; reflexivity.
  - destruct (odict_get (source_systematics example_calculator) "noise")
      as [sys|] eqn:E; [| reflexivity].
    apply (H "noise" sys) in E as [E1 E2].
    vm_compute in E1. injection E1 as <-. vm_compute in E2. discriminate E2.
Defined.

(** ** The sources that are built *)

Section Sources_properties.
Context {Systematic Info Metadata SourceBody : Type}.
Variables isinstance_OutputSystematic isinstance_CosmologySystematic
          isinstance_SourceSystematic : Systematic -> bool.
Variable from_info : Info -> result Systematic.
Variable sys_is_None : Systematic -> bool.
Variable make_source :
  string -> pyval -> Metadata -> result (Source Systematic SourceBody).
Variable TheoryCalculator_init :
  Config Info -> Metadata
  -> result (Calculator Systematic Metadata SourceBody).

Implicit Types (self : Calculator Systematic Metadata SourceBody).
Implicit Types (table : odict Systematic) (info : odict SourceInfo).

Lemma attach_Ok_shape table name sys_names :
  forall (source source' : Source Systematic SourceBody) used used',
    attach sys_is_None table name sys_names source used
    = Ok (source', used') ->
    src_body source' = src_body source
    /\ exists syss,
         src_systematics source' = src_systematics source ++ syss
         /\ Forall2 (fun n sys => odict_get table n = Some sys)
              sys_names syss.
Proof.
  induction sys_names as [| n rest IH]; intros source source' used used' H.
  - cbn [attach] in H. injection H as <- <-. split; [reflexivity |].
    exists []. rewrite app_nil_r. split; [reflexivity | constructor].
  - cbn [attach] in H.
    destruct (resolve sys_is_None table n) as [sys|] eqn:En;
      [| discriminate].
    apply resolve_Some in En as [En _].
    destruct (IH _ _ _ _ H) as (Hb & syss & Hs & HF).
    cbn [src_body src_systematics] in Hb, Hs.
    split; [exact Hb |]. exists (sys :: syss).
    rewrite Hs, <- app_assoc. split; [reflexivity |].
    constructor; [exact En | exact HF].
Qed.

Lemma build_sources_Ok_shape self info :
  forall built used built' used',
    build_sources sys_is_None make_source self info built used
    = Ok (built', used') ->
    exists new,
      built' = built ++ new
      /\ Forall2 (built_from make_source self) info new.
Proof.
  induction info as [| [n si0] rest IH]; intros built used built' used' H.
  - cbn [build_sources] in H. injection H as <- <-. exists [].
    rewrite app_nil_r. split; [reflexivity | constructor].
  - cbn [build_sources] in H.
    destruct (si_type si0) as [stype|] eqn:Et; [| discriminate].
    cbn [bind] in H.
    destruct (metadata self) as [md|] eqn:Em; [| discriminate].
    cbn [bind] in H.
    destruct (make_source n stype md) as [base|] eqn:Eb; [| discriminate].
    cbn [bind] in H.
    destruct (attach sys_is_None (systematics self) n
                (default [] (si_systematics si0)) base used)
      as [[src used1]|] eqn:Ea; [| discriminate].
    cbn [bind fst snd] in H.
    apply attach_Ok_shape in Ea as (Hbody & syss & Hs & HF).
    destruct (IH _ _ _ _ H) as (new & -> & HN).
    exists (src :: new). rewrite <- app_assoc. split; [reflexivity |].
    constructor; [| exact HN].
    exists stype, md, base, syss. cbn [fst snd]. rewrite Em. auto 10.
Qed.

(** What a returned [setup_sources] leaves behind. *)
Lemma setup_sources_Ok_inv self (config : Config Info) self' :
  setup_sources sys_is_None make_source self config = Ok self' ->
  exists info,
    cfg_sources config = Some info
    /\ Forall2 (built_from make_source self) info (sources self')
    /\ systematics self' = systematics self
    /\ source_systematics self' = source_systematics self
    /\ output_systematics self' = output_systematics self
    /\ cosmology_systematics self' = cosmology_systematics self
    /\ metadata self' = metadata self.
Proof.
  unfold setup_sources. intros H.
  destruct (cfg_sources config) as [info|]; cbn [bind] in H;
    [| discriminate].
  destruct (build_sources sys_is_None make_source self info [] ∅)
    as [[built used]|] eqn:Eb; cbn [bind fst snd] in H; [| discriminate].
  destruct (check_used _ used); cbn [bind] in H; [| discriminate].
  injection H as <-. exists info.
  apply build_sources_Ok_shape in Eb as (new & -> & HF).
  cbn. auto 10.
Qed.

(** X22.  When [setup_sources] returns, the calculator has one source per
    entry of the configuration, in the same order, each being what
    [make_source] built for the entry's name and type with the table's
    objects for the listed systematics appended in the order listed;
    sources from before are dropped, and the table, the buckets and the
    metadata are as they were. *)
Theorem setup_sources_Ok_shape self (config : Config Info) self' :
  setup_sources sys_is_None make_source self config = Ok self' ->
  exists info,
    cfg_sources config = Some info
    /\ Forall2 (built_from make_source self) info (sources self')
    /\ systematics self' = systematics self
    /\ source_systematics self' = source_systematics self
    /\ output_systematics self' = output_systematics self
    /\ cosmology_systematics self' = cosmology_systematics self
    /\ metadata self' = metadata self.
Proof. exact (setup_sources_Ok_inv self config self'). Qed.

(** The two rules hold of a calculator that [setup_sources] returned. *)
Lemma setup_sources_Ok_rules self (config : Config Info) self' info :
  cfg_sources config = Some info ->
  setup_sources sys_is_None make_source self config = Ok self' ->
  (forall name s, ~ unresolved sys_is_None (systematics self) info name s)
  /\ (forall s, ~ unused (source_systematics self) info s).
Proof.
  unfold setup_sources. intros -> H. cbn [bind] in H.
  destruct (build_sources sys_is_None make_source self info [] ∅)
    as [[built used]|] eqn:Eb; cbn [bind fst snd] in H; [| discriminate].
  destruct (check_used _ used) as [[]|] eqn:Ec; cbn [bind] in H;
    [| discriminate].
  apply build_sources_Ok in Eb as [Hres Hused]. split.
  - intros name s (si & Hin & Hs & Hn).
    destruct (Hres name si s Hin Hs) as [sys Hsys]. congruence.
  - intros s [Hkey Hno].
    pose proof (check_used_Ok _ _ Ec s Hkey) as Hin.
    apply Hused in Hin as [Hin | (name & si & Hin & Hs)].
    + apply not_elem_of_empty in Hin. exact Hin.
    + exact (Hno name si Hin Hs).
Qed.

(** X23.  A calculator that [__init__] returns satisfies both rules with
    respect to its own table: every systematic a source lists is defined
    in the table, and every systematic of the source bucket is listed by
    some source; it has one source per configured source, and its
    metadata is the metadata given. *)
Theorem init_Ok_complete (config : Config Info) (md : Metadata) self :
  TwoPoint.init isinstance_OutputSystematic isinstance_CosmologySystematic
    isinstance_SourceSystematic from_info sys_is_None make_source
    TheoryCalculator_init config md = Ok self ->
  exists info,
    cfg_sources config = Some info
    /\ (forall name s,
          ~ unresolved sys_is_None (systematics self) info name s)
    /\ (forall s, ~ unused (source_systematics self) info s)
    /\ length (sources self) = length info
    /\ metadata self = Some md.
Proof.
  unfold TwoPoint.init. intros H.
  apply bind_Ok in H as (self0 & _ & H).
  apply bind_Ok in H as (sys_config & _ & H).
  apply bind_Ok in H as (self1 & _ & H).
  apply bind_Ok in H as (self2 & H2 & H).
  injection H as <-. cbn [systematics source_systematics sources metadata].
  destruct (setup_sources_Ok_inv _ _ _ H2)
    as (info & Hinfo & HF & Hs & Hss & _).
  exists info. split; [exact Hinfo |].
  destruct (setup_sources_Ok_rules _ _ _ _ Hinfo H2) as [R1 R2].
  rewrite Hs, Hss. repeat split; try assumption.
  symmetry. exact (Forall2_length _ _ _ HF).
Qed.

(** X24.  [__init__] sets [self.metadata] after [setup_sources] has used
    it: if the base class leaves the attribute unset, then as soon as the
    configuration has a source with a type, [__init__] fails with the
    [AttributeError] of [metadata]. *)
Theorem init_metadata_order (config : Config Info) (md : Metadata)
    base sys_config name si rest stype :
  TheoryCalculator_init config md = Ok base ->
  metadata base = None ->
  cfg_systematics config = Some sys_config ->
  (forall n entry, (n, entry) ∈ sys_config ->
     exists sys, from_info entry = Ok sys) ->
  cfg_sources config = Some ((name, si) :: rest) ->
  si_type si = Some stype ->
  TwoPoint.init isinstance_OutputSystematic isinstance_CosmologySystematic
    isinstance_SourceSystematic from_info sys_is_None make_source
    TheoryCalculator_init config md = Raise (AttributeError "metadata").
Proof.
  intros Hb Hm Hsc Hall Hsrc Ht. unfold TwoPoint.init.
  rewrite Hb, Hsc. cbn [bind].
  destruct (setup_systematics_accepted isinstance_OutputSystematic
              isinstance_CosmologySystematic isinstance_SourceSystematic
              from_info base sys_config Hall) as [self1 H1].
  rewrite H1. cbn [bind].
  assert (Hm1 : metadata self1 = None).
  { unfold setup_systematics in H1.
    destruct (build_systematics from_info sys_config []); cbn [bind] in H1;
      [| discriminate].
    injection H1 as <-. exact Hm. }
  unfold setup_sources. rewrite Hsrc. cbn [bind build_sources].
  rewrite Ht, Hm1. reflexivity.
Qed.

End Sources_properties.

Lemma example_init_complete :
  exists self, example_init true config_complete = Ok self.
Proof. eexists. vm_compute. reflexivity. Qed.

Lemma init_Ok_complete_witness :
  exists self info,
    example_init true config_complete = Ok self
    /\ cfg_sources config_complete = Some info
    /\ length (sources self) = length info
    /\ metadata self = Some tt.
Proof.
  destruct (example_init true config_complete) as [self|e] eqn:E.
  - destruct (init_Ok_complete _ _ _ _ _ _ _ _ _ _ E)
      as (info & H1 & _ & _ & H4 & H5).
    exists self, info. auto.
  - exfalso. vm_compute in E. discriminate E.
Defined.

Lemma setup_sources_Ok_shape_witness :
  exists self' info,
    setup_sources example_is_None example_make_source example_calculator
      config_complete
    = Ok self'
    /\ cfg_sources config_complete = Some info
    /\ Forall2 (built_from example_make_source example_calculator) info
         (sources self').
Proof.
  destruct (setup_sources example_is_None example_make_source
              example_calculator config_complete) as [self'|e] eqn:E.
  - destruct (setup_sources_Ok_shape _ _ _ _ _ E) as (info & H1 & H2 & _).
    exists self', info. auto.
  - exfalso. vm_compute in E. discriminate E.
Defined.

Lemma init_metadata_order_witness :
  example_init false config_complete = Raise (AttributeError "metadata").
Proof.
  eapply (init_metadata_order (example_is "OutputSystematic")
            (example_is "CosmologySystematic")
            (example_is "SourceSystematic") example_from_info
            example_is_None example_make_source (example_base_init false)
            config_complete
            tt _ example_table "lens0" (example_source ["bias"]) _
            (PStr "LSS")); try reflexivity.
  intros n info _. exists info. reflexivity.
Defined.
